(** * Supabase migration tool: table discovery, row counts, drift comparison,
      paginated copy and the migration orchestrator.

    Shallow embedding of [migrate_cloud_to_local.py] (discovery, counts,
    comparison, copy, orchestrator, menu and session) and of the listing,
    counting, dropping and copying functions of [supabase_toolkit.py]
    (module [Toolkit]).  Python [str] values are [string]s, sequences of
    code points below 256 (compared character by character, as Python
    compares code points), Python [int]s are
    [Z], dictionaries are [gmap]s, sets are [gset]s.  A call that may raise
    returns an [outcome]; a [while True] loop takes a fuel argument and returns
    [None] only when the fuel runs out. *)

From Stdlib Require Import ZArith String Ascii.
From stdpp Require Import base tactics option list sorting strings pretty gmap.

Local Open Scope Z_scope.

(** ** Calls that may raise *)

(** The result of a Python call: a value, or an exception with its message. *)
Inductive outcome (A : Type) : Type :=
  | Returns (a : A)
  | Raises (e : string).
Arguments Returns {A} a.
Arguments Raises {A} e.

(** ** Strings *)

(** [sorted(xs)] on a list of strings: ascending in the lexicographic order
    on characters ([String.le] is [String.leb]). *)
Definition sorted (xs : list string) : list string := merge_sort String.le xs.

(** [str(x)] inside an f-string, for a value that is a string or [None]. *)
Definition py_str (x : option string) : string :=
  match x with
  | Some s => s
  | None => "None"
  end.

(** ** Regular expressions: the literal fragment

    Every pattern of [EXCLUDE_PATTERNS] is a caret followed by literal
    characters.  [re_search] covers that fragment and plain literals: a leading
    caret anchors the literal at the start of the string (no MULTILINE flag is
    passed), otherwise the literal is searched at every position. *)

Fixpoint find_literal (lit s : string) : bool :=
  String.prefix lit s ||
  match s with
  | EmptyString => false
  | String _ s' => find_literal lit s'
  end.

Definition re_search (pattern s : string) : bool :=
  match pattern with
  | String "^"%char lit => String.prefix lit s
  | _ => find_literal pattern s
  end.

(** ** Configuration *)

Definition EXCLUDE_PATTERNS : list string :=
  [ "^pg_"; "^sql_"; "^_"; "^storage"; "^realtime"; "^supabase"; "^auth";
    "^extensions" ].

Definition INCLUDE_SCHEMAS : list string := [ "public" ].

(** ** Table Lister: [get_tables] *)

(** One row of the catalog answer: a dictionary read with [item.get(key)]. *)
Abbreviation item := (gmap string string).

(** [any(re.search(pattern, full_name) for pattern in patterns)] *)
Definition matches_any (patterns : list string) (full_name : string) : bool :=
  existsb (fun pattern => re_search pattern full_name) patterns.

(** [f"{schema}.{table_name}" if schema != 'public' else table_name]; the
    value bound to a missing key is [None].  Inside the f-string [None] is
    printed as "None"; in the other branch the name is the value itself, so
    the result is [None] when the public row has no table name. *)
Definition full_name_of (it : item) : option string :=
  let schema := it !! "table_schema" in
  let table_name := it !! "table_name" in
  if decide (schema = Some "public") then table_name
  else Some (py_str schema +:+ "." +:+ py_str table_name).

(** The body of the [for item in response.data] loop: the names appended to
    [tables], in order.  [re.search] raises a [TypeError] on a name that is
    [None], which ends the loop. *)
Fixpoint collect_tables (data : list item) : outcome (list string) :=
  match data with
  | [] => Returns []
  | it :: rest =>
      match full_name_of it with
      | None => Raises "expected string or bytes-like object"
      | Some full_name =>
          if matches_any EXCLUDE_PATTERNS full_name then collect_tables rest
          else
            match collect_tables rest with
            | Returns tables => Returns (full_name :: tables)
            | Raises e => Raises e
            end
      end
  end.

(** [get_tables], over the answer of the [pg_query] remote procedure:
    the call raises, or gives a response whose [data] is absent ([None]) or a
    list of items.  An exception is printed and raised again. *)
Definition get_tables (response : outcome (option (list item))) : outcome (list string) :=
  match response with
  | Raises e => Raises e
  | Returns None => Returns []
  | Returns (Some []) => Returns []
  | Returns (Some data) =>
      match collect_tables data with
      | Returns tables => Returns (sorted tables)
      | Raises e => Raises e
      end
  end.

(** The catalog rows a response carries. *)
Definition catalog (response : outcome (option (list item))) : list item :=
  match response with
  | Returns (Some data) => data
  | _ => []
  end.

(** ** Store handles *)

(** The read operations of a [Client] that the tool uses:
    [table(t).select("*").range(lo, hi).execute().data] and
    [table(t).select("*", count='exact').execute().count] (an [Optional[int]]). *)
Record Client (Row : Type) : Type := {
  select_range : string → Z → Z → outcome (list Row);
  select_count : string → outcome (option Z)
}.
Arguments select_range {Row} _ _ _ _.
Arguments select_count {Row} _ _.

(** ** Row Counter: [get_table_counts] *)

(** [count or 0] *)
Definition count_or_0 (count : option Z) : Z :=
  match count with
  | Some c => if decide (c = 0) then 0 else c
  | None => 0
  end.

Definition get_table_counts {Row} (supabase : Client Row) (table_name : string) : Z :=
  match select_count supabase table_name with
  | Returns count => count_or_0 count
  | Raises _ => -1
  end.

(** ** Drift Comparator: [compare_tables] *)

(** A count column holds the integer of [get_table_counts] or the text "N/A". *)
Inductive cell : Type :=
  | CInt (n : Z)
  | CStr (s : string).

(** [a == b] on such values: an [int] never equals a [str]. *)
Definition cell_eqb (a b : cell) : bool :=
  match a, b with
  | CInt x, CInt y => bool_decide (x = y)
  | CStr s, CStr t => bool_decide (s = t)
  | _, _ => false
  end.

(** [str(c)] *)
Definition cell_str (c : cell) : string :=
  match c with
  | CInt n => pretty n
  | CStr s => s
  end.

(** The four status texts of a comparison line. *)
Inductive status : Type :=
  | OnlyInLocal                       (* "Only in LOCAL" *)
  | OnlyInCloud                       (* "Only in CLOUD" *)
  | InSync                            (* "In sync" *)
  | DifferentRowCounts (cloud_count local_count : cell).
                                      (* "Different row counts (c vs l)" *)

(** One printed line: table, cloud rows, local rows, status. *)
Record comparison := {
  cmp_table : string;
  cmp_cloud : cell;
  cmp_local : cell;
  cmp_status : status
}.

(** [sorted(set(cloud_tables + local_tables))] *)
Definition all_tables (cloud_tables local_tables : list string) : list string :=
  sorted (elements (list_to_set (cloud_tables ++ local_tables) : gset string)).

(** The body of [for table in all_tables]. *)
Definition compare_one {Row} (cloud_tables local_tables : list string)
    (supabase_cloud supabase_local : Client Row) (table : string) : comparison :=
  let cloud_count :=
    if decide (table ∈ cloud_tables) then CInt (get_table_counts supabase_cloud table)
    else CStr "N/A" in
  let local_count :=
    if decide (table ∈ local_tables) then CInt (get_table_counts supabase_local table)
    else CStr "N/A" in
  let status :=
    if decide (table ∉ cloud_tables) then OnlyInLocal
    else if decide (table ∉ local_tables) then OnlyInCloud
    else if cell_eqb cloud_count local_count then InSync
    else DifferentRowCounts cloud_count local_count in
  {| cmp_table := table; cmp_cloud := cloud_count; cmp_local := local_count;
     cmp_status := status |}.

(** [compare_tables]: the lines printed under the header, in order. *)
Definition compare_tables {Row} (cloud_tables local_tables : list string)
    (supabase_cloud supabase_local : Client Row) : list comparison :=
  compare_one cloud_tables local_tables supabase_cloud supabase_local
    <$> all_tables cloud_tables local_tables.

(** ** [show_tables] *)

(** The rows column: [count if count >= 0 else 'Error']. *)
Definition show_count (count : Z) : string :=
  if decide (0 ≤ count) then pretty count else "Error".

(** The lines of [show_tables]: index from 1, table, rows column. *)
Definition show_tables {Row} (tables : list string) (supabase : Client Row)
    : list (nat * string * string) :=
  imap (fun i table => (S i, table, show_count (get_table_counts supabase table))) tables.

(** ** What a run does: requests and printed lines *)

(** The lines the copier and the orchestrator print. *)
Inductive line : Type :=
  | MigratingTable (table : string)
  | ErrorInsertingRow (table e : string)
  | CopiedRecords (n : nat) (total : Z)
  | ErrorDuringMigration (table e : string)
  | NoTablesToMigrate
  | FoundTables (n : nat)
  | ListedTable (i : nat) (table : string)
  | MigrationCancelled
  | ProgressTable (i total_tables : nat) (table : string)
  | CompletedTable (table : string) (total : Z)
  | SkippingTable (table e : string)
  | MigrationCompleted.

(** The calls a run makes, in order: a range request on the source, an insert
    request on the target (issued, whether it succeeds or raises), the delay
    between pages, the confirmation prompt, a printed line. *)
Inductive event (Row : Type) : Type :=
  | Fetch (table : string) (lo hi : Z)
  | Insert (table : string) (row : Row)
  | Sleep
  | Prompt
  | Print (l : line).
Arguments Fetch {Row} table lo hi.
Arguments Insert {Row} table row.
Arguments Sleep {Row}.
Arguments Prompt {Row}.
Arguments Print {Row} l.

(** ** The target store *)

(** The tables of the target, each with the rows inserted so far. *)
Abbreviation database Row := (gmap string (list Row)).

(** When the target refuses an insert (a constraint, a missing table, the
    network), the request raises with the message given here. *)
Abbreviation refusal Row := (database Row → string → Row → option string).

(** [supabase_local.table(table).insert(row).execute()] *)
Definition insert_execute {Row} (refuses : refusal Row) (target : database Row)
    (table : string) (row : Row) : outcome (database Row) :=
  match refuses target table row with
  | Some e => Raises e
  | None => Returns (<[table := default [] (target !! table) ++ [row]]> target)
  end.

(** ** Paginated Copier: [migrate_table] *)

Definition page_size : Z := 1000.

(** [for row in rows]: one insert per row; a refused row is reported and the
    loop goes on with the next one. *)
Fixpoint insert_rows {Row} (refuses : refusal Row) (table : string) (rows : list Row)
    (target : database Row) (total_inserted : Z)
    : database Row * Z * list (event Row) :=
  match rows with
  | [] => (target, total_inserted, [])
  | row :: rest =>
      match insert_execute refuses target table row with
      | Returns target' =>
          let '(target'', total, evs) :=
            insert_rows refuses table rest target' (total_inserted + 1) in
          (target'', total, Insert table row :: evs)
      | Raises e =>
          let '(target'', total, evs) :=
            insert_rows refuses table rest target total_inserted in
          (target'', total, Insert table row :: Print (ErrorInsertingRow table e) :: evs)
      end
  end.

(** [while True]: one turn per unit of fuel. *)
Fixpoint migrate_loop {Row} (fuel : nat) (supabase_cloud : Client Row)
    (refuses : refusal Row) (table : string) (start total_inserted : Z)
    (target : database Row) : option (database Row * Z * list (event Row)) :=
  match fuel with
  | O => None
  | S fuel' =>
      let request := Fetch table start (start + page_size - 1) in
      match select_range supabase_cloud table start (start + page_size - 1) with
      | Raises e => Some (target, total_inserted, [request; Print (ErrorDuringMigration table e)])
      | Returns [] => Some (target, total_inserted, [request])
      | Returns rows =>
          let '(target', total, inserts) :=
            insert_rows refuses table rows target total_inserted in
          match migrate_loop fuel' supabase_cloud refuses table (start + page_size)
                  total target' with
          | None => None
          | Some (target'', total', evs) =>
              Some (target'', total',
                    request :: inserts ++ Print (CopiedRecords (length rows) total) :: Sleep :: evs)
          end
      end
  end.

(** [migrate_table] returns [total_inserted]; every exception of its body is
    handled inside the loop, so the call itself never raises. *)
Definition migrate_table {Row} (fuel : nat) (supabase_cloud : Client Row)
    (refuses : refusal Row) (table : string) (target : database Row)
    : option (database Row * outcome Z * list (event Row)) :=
  match migrate_loop fuel supabase_cloud refuses table 0 0 target with
  | None => None
  | Some (target', total_inserted, evs) =>
      Some (target', Returns total_inserted, Print (MigratingTable table) :: evs)
  end.

(** ** Migration Orchestrator: [migrate_all_tables] *)

(** The characters of a [string] are the code points below 256.  Among them
    [str.strip] removes the code points 9 to 13, 28 to 31, 32, 133 (next
    line) and 160 (no-break space): those for which [str.isspace] holds. *)
Definition is_space (c : ascii) : bool :=
  match c with
  | "009" | "010" | "011" | "012" | "013" | "028" | "029" | "030" | "031" | " "
  | "133" | "160" => true
  | _ => false
  end%char.

Fixpoint lstrip (s : string) : string :=
  match s with
  | String c s' => if is_space c then lstrip s' else s
  | EmptyString => EmptyString
  end.

Definition strip (s : string) : string :=
  String.rev (lstrip (String.rev (lstrip s))).

(** [str.lower] on one character: the capital letters, A to Z (65 to 90) and
    the accented ones (192 to 222 but the multiplication sign 215), move 32
    places up to their small letters; the other code points stay. *)
Definition lower_char (c : ascii) : ascii :=
  let n := N_of_ascii c in
  if decide (65 ≤ n ≤ 90 ∨ 192 ≤ n ≤ 222 ∧ n ≠ 215)%N then ascii_of_N (n + 32) else c.

Fixpoint lower (s : string) : string :=
  match s with
  | String c s' => String (lower_char c) (lower s')
  | EmptyString => EmptyString
  end.

(** [confirm = input(...).strip().lower()] and the test [confirm != 'y']. *)
Definition confirmed (answer : string) : bool :=
  bool_decide (lower (strip answer) = "y").

(** [for i, table in enumerate(cloud_tables, 1)]: the listing. *)
Definition listing {Row} (cloud_tables : list string) : list (event Row) :=
  imap (fun i table => Print (ListedTable (S i) table)) cloud_tables.

(** [for i, table in enumerate(cloud_tables, 1)]: the copy of each table; [i]
    is the index of the first table of [tables]. *)
Fixpoint migrate_each {Row} (fuel : nat) (supabase_cloud : Client Row)
    (refuses : refusal Row) (total_tables i : nat) (tables : list string)
    (target : database Row) : option (database Row * list (event Row)) :=
  match tables with
  | [] => Some (target, [])
  | table :: rest =>
      match migrate_table fuel supabase_cloud refuses table target with
      | None => None
      | Some (target', result, evs) =>
          let report :=
            match result with
            | Returns total => Print (CompletedTable table total)
            | Raises e => Print (SkippingTable table e)
            end in
          match migrate_each fuel supabase_cloud refuses total_tables (S i) rest target' with
          | None => None
          | Some (target'', evs') =>
              Some (target'',
                    Print (ProgressTable i total_tables table) :: evs ++ report :: evs')
          end
      end
  end.

(** [migrate_all_tables]: the value returned, the target afterwards and the
    calls made.  [answer] is the line the user types at the prompt; [fuel]
    bounds the page requests of each table. *)
Definition migrate_all_tables {Row} (fuel : nat) (cloud_tables : list string)
    (supabase_cloud : Client Row) (refuses : refusal Row) (answer : string)
    (target : database Row) : option (bool * database Row * list (event Row)) :=
  match cloud_tables with
  | [] => Some (false, target, [Print NoTablesToMigrate])
  | _ =>
      let header := Print (FoundTables (length cloud_tables)) :: listing cloud_tables ++ [Prompt] in
      if negb (confirmed answer) then
        Some (false, target, header ++ [Print MigrationCancelled])
      else
        match migrate_each fuel supabase_cloud refuses (length cloud_tables) 1 cloud_tables target with
        | None => None
        | Some (target', evs) =>
            Some (true, target', header ++ evs ++ [Print MigrationCompleted])
        end
  end.

(** ** Reading a run *)

(** The ranges requested from the source, in order. *)
Definition fetches {Row} (evs : list (event Row)) : list (string * Z * Z) :=
  omap (fun ev => match ev with Fetch t lo hi => Some (t, lo, hi) | _ => None end) evs.

(** The rows for which an insert request was issued, in order. *)
Definition attempted {Row} (evs : list (event Row)) : list (string * Row) :=
  omap (fun ev => match ev with Insert t row => Some (t, row) | _ => None end) evs.

(** The per-row failures reported, in order. *)
Definition failures {Row} (evs : list (event Row)) : list (string * string) :=
  omap (fun ev => match ev with Print (ErrorInsertingRow t e) => Some (t, e) | _ => None end) evs.

(** The tables whose copy was started by the orchestrator, in order. *)
Definition started {Row} (evs : list (event Row)) : list string :=
  omap (fun ev => match ev with Print (ProgressTable _ _ t) => Some t | _ => None end) evs.

(** ** A store of finite tables *)

(** The rows of [rows] at positions [lo] to [hi], both included: what a range
    request answers on a table that holds [rows]. *)
Definition slice {Row} (rows : list Row) (lo hi : Z) : list Row :=
  take (Z.to_nat (hi - lo + 1)) (drop (Z.to_nat lo) rows).

(** A store that holds the given tables and answers every request; a request
    on a table it does not hold raises. *)
Definition table_store {Row} (tables : gmap string (list Row)) : Client Row := {|
  select_range t lo hi :=
    match tables !! t with
    | Some rows => Returns (slice rows lo hi)
    | None => Raises "relation does not exist"
    end;
  select_count t :=
    match tables !! t with
    | Some rows => Returns (Some (Z.of_nat (length rows)))
    | None => Raises "relation does not exist"
    end
|}.

(** A target that accepts every row. *)
Definition accepts_all {Row} : refusal Row := fun _ _ _ => None.

(** ** The counting loop of [list_tables_with_counts] *)

Definition batch_size : Z := 1000.
Definition max_empty_batches : Z := 3.

(** The [while True] loop that counts the rows of one table, page by page.
    The result is [total] when the loop is left by [break]; an exception of
    the range request leaves the loop and reaches the handler of the table. *)
Fixpoint count_loop {Row} (fuel : nat) (supabase : Client Row) (table : string)
    (start total empty_batches : Z) : option (outcome Z * list (event Row)) :=
  match fuel with
  | O => None
  | S fuel' =>
      let request := Fetch table start (start + batch_size - 1) in
      match select_range supabase table start (start + batch_size - 1) with
      | Raises e => Some (Raises e, [request])
      | Returns rows =>
          (* if not rows: ... else: ... ; the third component says that the
             first branch reached its [break] *)
          let '(total', empty_batches', stop) :=
            match rows with
            | [] =>
                let empty_batches' := empty_batches + 1 in
                (total, empty_batches', bool_decide (max_empty_batches ≤ empty_batches'))
            | _ => (total + Z.of_nat (length rows), 0, false)
            end in
          if stop then Some (Returns total', [request])
          else if decide (Z.of_nat (length rows) < batch_size) then
            Some (Returns total', [request])
          else
            match count_loop fuel' supabase table (start + batch_size) total' empty_batches' with
            | None => None
            | Some (result, evs) => Some (result, request :: evs)
            end
      end
  end.

(** The body of [for table in tables]: the counters start at zero. *)
Definition count_table {Row} (fuel : nat) (supabase : Client Row) (table : string)
    : option (outcome Z * list (event Row)) :=
  count_loop fuel supabase table 0 0 0.

(** ** The menu of the migration script: [show_menu] *)

(** [show_menu] over the lines the user types, in order: the choice returned,
    the lines left, and the number of warnings printed.  With no line left,
    [input] raises [EOFError]. *)
Fixpoint show_menu (typed : list string) : outcome string * list string * nat :=
  match typed with
  | [] => (Raises "EOF when reading a line", [], 0%nat)
  | typed_line :: rest =>
      let choice := strip typed_line in
      if decide (choice ∈ [ "1"; "2"; "3"; "4"; "5" ]) then (Returns choice, rest, 0%nat)
      else
        let '(result, rest', warnings) := show_menu rest in
        (result, rest', S warnings)
  end.

(** ** The session of the migration script: [main] *)

(** What [main] does, in order: a menu prompt with the warnings it printed, a
    listing of one instance, a comparison, the refusal to migrate an empty
    cloud list, a run of [migrate_all_tables], the exit line, and the two
    fatal lines. *)
Inductive session_event (Row : Type) : Type :=
  | MenuShown (warnings : nat)
  | TablesShown (instance_name : string) (lines : list (nat * string * string))
  | TablesCompared (lines : list comparison)
  | NoCloudTables
  | MigrationRun (evs : list (event Row))
  | Exiting
  | NoTablesAnywhere
  | ErrorOccurred (e : string).
Arguments MenuShown {Row} warnings.
Arguments TablesShown {Row} instance_name lines.
Arguments TablesCompared {Row} lines.
Arguments NoCloudTables {Row}.
Arguments MigrationRun {Row} evs.
Arguments Exiting {Row}.
Arguments NoTablesAnywhere {Row}.
Arguments ErrorOccurred {Row} e.

(** The [while True] loop of [main], one turn per unit of [turns].  The
    catalog of the local instance is asked again after every migration;
    [local_catalog] gives its answer for the content the target then has.
    An exception, also the [EOFError] of a prompt with no typed line left,
    ends the session with exit code 1. *)
Fixpoint main_loop {Row} (turns fuel : nat) (supabase_cloud supabase_local : Client Row)
    (local_catalog : database Row → outcome (option (list item)))
    (refuses : refusal Row) (cloud_tables local_tables : list string)
    (typed : list string) (target : database Row)
    : option (Z * database Row * list (session_event Row)) :=
  match turns with
  | O => None
  | S turns' =>
      let again lt ty tg evs :=
        match main_loop turns' fuel supabase_cloud supabase_local local_catalog refuses
                cloud_tables lt ty tg with
        | None => None
        | Some (code, target', evs') => Some (code, target', evs ++ evs')
        end in
      match show_menu typed with
      | (Raises e, _, warnings) =>
          Some (1, target, [MenuShown warnings; ErrorOccurred e])
      | (Returns choice, rest, warnings) =>
          if decide (choice = "1") then
            again local_tables rest target
              [MenuShown warnings; TablesShown "CLOUD" (show_tables cloud_tables supabase_cloud)]
          else if decide (choice = "2") then
            again local_tables rest target
              [MenuShown warnings; TablesShown "LOCAL" (show_tables local_tables supabase_local)]
          else if decide (choice = "3") then
            again local_tables rest target
              [MenuShown warnings;
               TablesCompared (compare_tables cloud_tables local_tables
                                 supabase_cloud supabase_local)]
          else if decide (choice = "4") then
            match cloud_tables, rest with
            | [], _ => again local_tables rest target [MenuShown warnings; NoCloudTables]
            | _, [] =>
                Some (1, target,
                      [MenuShown warnings;
                       MigrationRun (Print (FoundTables (length cloud_tables))
                                     :: listing cloud_tables ++ [Prompt]);
                       ErrorOccurred "EOF when reading a line"])
            | _, answer :: rest' =>
                match migrate_all_tables fuel cloud_tables supabase_cloud refuses answer
                        target with
                | None => None
                | Some (_, target', evs) =>
                    match get_tables (local_catalog target') with
                    | Raises e =>
                        Some (1, target', [MenuShown warnings; MigrationRun evs; ErrorOccurred e])
                    | Returns local_tables' =>
                        again local_tables' rest' target' [MenuShown warnings; MigrationRun evs]
                    end
                end
            end
          else if decide (choice = "5") then Some (0, target, [MenuShown warnings; Exiting])
          else again local_tables rest target [MenuShown warnings]
      end
  end.

(** [main]: the exit code, the target afterwards and what was done.
    [clients] is the result of [create_supabase_clients], [cloud_catalog] the
    answer of the catalog of the cloud instance. *)
Definition main {Row} (fuel : nat) (clients : outcome (Client Row * Client Row))
    (cloud_catalog : outcome (option (list item)))
    (local_catalog : database Row → outcome (option (list item)))
    (refuses : refusal Row) (typed : list string) (target : database Row)
    : option (Z * database Row * list (session_event Row)) :=
  match clients with
  | Raises e => Some (1, target, [ErrorOccurred e])
  | Returns (supabase_cloud, supabase_local) =>
      match get_tables cloud_catalog with
      | Raises e => Some (1, target, [ErrorOccurred e])
      | Returns cloud_tables =>
          match get_tables (local_catalog target) with
          | Raises e => Some (1, target, [ErrorOccurred e])
          | Returns local_tables =>
              match cloud_tables, local_tables with
              | [], [] => Some (1, target, [NoTablesAnywhere])
              | _, _ =>
                  main_loop (S (length typed)) fuel supabase_cloud supabase_local
                    local_catalog refuses cloud_tables local_tables typed target
              end
          end
      end
  end.

(** ** The toolkit: [supabase_toolkit.py] *)

Module Toolkit.

(** The lines the toolkit prints. *)
Inductive line : Type :=
  | UnexpectedFormat
  | InstallHint
  | ErrorListing (error_msg : string)
  | NoTablesFound
  | CountLine (table : string) (total : Z)
  | CountError (table e : string)
  | OperationCancelled
  | NoTablesToDrop
  | Dropping (n : nat)
  | Dropped (table : string)
  | DropError (table e : string)
  | NoTablesInSource
  | CopyingTable (table : string)
  | NoData (table : string)
  | CopiedRows (n : nat) (table : string)
  | CopyError (table e : string).

(** The requests the toolkit sends besides range requests: the two remote
    procedures, the unpaged select and the insert of a list of rows. *)
Inductive call (Row : Type) : Type :=
  | ListTables
  | DropTable (table : string)
  | SelectAll (table : string)
  | InsertRows (table : string) (rows : list Row).
Arguments ListTables {Row}.
Arguments DropTable {Row} table.
Arguments SelectAll {Row} table.
Arguments InsertRows {Row} table rows.

(** The two messages that tell that the remote procedure is not installed. *)
Definition function_missing (error_msg : string) : bool :=
  find_literal "function public.list_tables() does not exist" error_msg
  || find_literal "Could not find the function public.list_tables without parameters" error_msg.

(** [list_tables], over the answer of the [list_tables] remote procedure: the
    call raises, or gives a response whose [data] is a list of rows or is not
    a list ([None]).  The rows bind their keys to strings.  Every exception
    is handled: the function returns [None] and prints one line. *)
Definition list_tables (response : outcome (option (list item)))
    : option (list string) * list line :=
  match response with
  | Returns (Some data) =>
      (Some (sorted (omap (fun row : item => row !! "table_name") data)), [])
  | Returns None => (None, [UnexpectedFormat])
  | Raises error_msg =>
      (None, [if function_missing error_msg then InstallHint else ErrorListing error_msg])
  end.

(** [show_menu] of the toolkit: the typed line is compared as it is. *)
Fixpoint show_menu (typed : list string) : outcome string * list string * nat :=
  match typed with
  | [] => (Raises "EOF when reading a line", [], 0%nat)
  | choice :: rest =>
      if decide (choice ∈ [ "1"; "2"; "3"; "4"; "5"; "6" ]) then (Returns choice, rest, 0%nat)
      else
        let '(result, rest', warnings) := show_menu rest in
        (result, rest', S warnings)
  end.

(** [for table in tables] of [list_tables_with_counts]: the line printed for
    each table and the range requests sent. *)
Fixpoint count_tables {Row} (fuel : nat) (supabase : Client Row) (tables : list string)
    : option (list line * list (event Row)) :=
  match tables with
  | [] => Some ([], [])
  | table :: rest =>
      match count_table fuel supabase table with
      | None => None
      | Some (result, evs) =>
          let printed :=
            match result with
            | Returns total => CountLine table total
            | Raises e => CountError table e
            end in
          match count_tables fuel supabase rest with
          | None => None
          | Some (lines, evs') => Some (printed :: lines, evs ++ evs')
          end
      end
  end.

(** [list_tables_with_counts]: the list returned, the lines printed and the
    range requests sent. *)
Definition list_tables_with_counts {Row} (fuel : nat) (supabase : Client Row)
    (response : outcome (option (list item)))
    : option (list string * list line * list (event Row)) :=
  let '(tables, printed) := list_tables response in
  match tables with
  | None | Some [] => Some ([], printed ++ [NoTablesFound], [])
  | Some tables =>
      match count_tables fuel supabase tables with
      | None => None
      | Some (lines, evs) => Some (tables, printed ++ lines, evs)
      end
  end.

(** [drop_tables]: [confirm] is the line typed at the warning, [response] the
    answer of the [list_tables] remote procedure, and [drop table] tells
    whether the [drop_table] remote procedure raises for the table.  The
    result is the lines printed and the remote procedures called. *)
Definition drop_tables {Row} (confirm : string) (response : outcome (option (list item)))
    (drop : string → option string) : list line * list (call Row) :=
  if decide (lower confirm ≠ "y") then ([OperationCancelled], [])
  else
    let '(tables, printed) := list_tables response in
    match tables with
    | None | Some [] => (printed ++ [NoTablesToDrop], [ListTables])
    | Some tables =>
        (printed ++ Dropping (length tables)
           :: ((fun table => match drop table with
                             | None => Dropped table
                             | Some e => DropError table e
                             end) <$> tables),
         ListTables :: (DropTable <$> tables))
    end.

(** When the target refuses the insert of a list of rows. *)
Abbreviation bulk_refusal Row := (database Row → string → list Row → option string).

(** [for table in tables] of [copy_table_data]: [select_all table] is the
    answer of the unpaged select on the source. *)
Fixpoint copy_tables {Row} (select_all : string → outcome (list Row))
    (refuses : bulk_refusal Row) (tables : list string) (target : database Row)
    : database Row * list line * list (call Row) :=
  match tables with
  | [] => (target, [], [])
  | table :: rest =>
      match select_all table with
      | Raises e =>
          let '(target', lines, calls) := copy_tables select_all refuses rest target in
          (target', CopyingTable table :: CopyError table e :: lines, SelectAll table :: calls)
      | Returns [] =>
          let '(target', lines, calls) := copy_tables select_all refuses rest target in
          (target', CopyingTable table :: NoData table :: lines, SelectAll table :: calls)
      | Returns rows =>
          match refuses target table rows with
          | Some e =>
              let '(target', lines, calls) := copy_tables select_all refuses rest target in
              (target', CopyingTable table :: CopyError table e :: lines,
               SelectAll table :: InsertRows table rows :: calls)
          | None =>
              let '(target', lines, calls) :=
                copy_tables select_all refuses rest
                  (<[table := default [] (target !! table) ++ rows]> target) in
              (target', CopyingTable table :: CopiedRows (length rows) table :: lines,
               SelectAll table :: InsertRows table rows :: calls)
          end
      end
  end.

(** [copy_table_data]: the target afterwards, the lines printed and the
    requests sent. *)
Definition copy_table_data {Row} (response : outcome (option (list item)))
    (select_all : string → outcome (list Row)) (refuses : bulk_refusal Row)
    (target : database Row) : database Row * list line * list (call Row) :=
  let '(tables, printed) := list_tables response in
  match tables with
  | None | Some [] => (target, printed ++ [NoTablesInSource], [ListTables])
  | Some tables =>
      let '(target', lines, calls) := copy_tables select_all refuses tables target in
      (target', printed ++ lines, ListTables :: calls)
  end.

(** The tables a list of requests inserts into. *)
Definition inserted_into {Row} (calls : list (call Row)) : list string :=
  omap (fun c => match c with InsertRows t _ => Some t | _ => None end) calls.

End Toolkit.

(** ** Vocabulary of the statements *)

(** The qualified names of a catalog that no pattern of [EXCLUDE_PATTERNS]
    matches, in the order of the catalog. *)
Definition kept_names (data : list item) : list string :=
  filter (fun name => matches_any EXCLUDE_PATTERNS name = false) (omap full_name_of data).

(** The last character of a string. *)
Fixpoint last_char (s : string) : option ascii :=
  match s with
  | EmptyString => None
  | String c EmptyString => Some c
  | String _ s' => last_char s'
  end.

(** The number of pages that hold [n] rows: [n / page_size], rounded up. *)
Definition pages_of (n : nat) : nat :=
  Z.to_nat ((Z.of_nat n + page_size - 1) / page_size).

(** The ranges of [n] consecutive pages of [table], the first one at [start]. *)
Definition page_ranges (table : string) (start : Z) (n : nat) : list (string * Z * Z) :=
  (fun k : nat => (table, start + Z.of_nat k * page_size,
                   start + Z.of_nat k * page_size + page_size - 1)) <$> seq 0 n.

(** Within [n] requests from [start] on, a range request on [table] raises or
    answers an empty page. *)
Fixpoint exhausts {Row} (n : nat) (supabase_cloud : Client Row) (table : string)
    (start : Z) : bool :=
  match n with
  | O => false
  | S n' =>
      match select_range supabase_cloud table start (start + page_size - 1) with
      | Raises _ => true
      | Returns [] => true
      | Returns _ => exhausts n' supabase_cloud table (start + page_size)
      end
  end.

(** A source whose first page is empty although rows follow: positions below
    [gap] answer nothing, the rows start at position [gap]. *)
Definition gapped_store {Row} (gap : Z) (rows : list Row) : Client Row := {|
  select_range t lo hi :=
    if decide (lo < gap) then Returns [] else Returns (slice rows (lo - gap) (hi - gap));
  select_count t := Returns (Some (Z.of_nat (length rows)))
|}.

(** A target that refuses the rows of [bad] and accepts the others. *)
Definition refuses_rows (bad : list Z) : refusal Z :=
  fun _ _ row => if decide (row ∈ bad) then Some "duplicate key value" else None.

(** The rows of the pages that a list of range requests is answered with, in
    order; a request that raises brings no row. *)
Definition answered_rows {Row} (supabase_cloud : Client Row)
    (requests : list (string * Z * Z)) : list (string * Row) :=
  requests ≫= fun request =>
    match select_range supabase_cloud request.1.1 request.1.2 request.2 with
    | Returns rows => (fun row => (request.1.1, row)) <$> rows
    | Raises _ => []
    end.

(** A source that holds [rows] in every table and whose range requests raise
    from position [fail_from] on. *)
Definition failing_store {Row} (fail_from : Z) (rows : list Row) : Client Row := {|
  select_range t lo hi :=
    if decide (fail_from ≤ lo) then Raises "request timed out" else Returns (slice rows lo hi);
  select_count t := Returns (Some (Z.of_nat (length rows)))
|}.

(** A comparison line read from the other side: the two count columns and
    the two one-sided statuses change places. *)
Definition mirror_status (st : status) : status :=
  match st with
  | OnlyInLocal => OnlyInCloud
  | OnlyInCloud => OnlyInLocal
  | InSync => InSync
  | DifferentRowCounts c l => DifferentRowCounts l c
  end.

Definition mirror (l : comparison) : comparison :=
  {| cmp_table := cmp_table l; cmp_cloud := cmp_local l; cmp_local := cmp_cloud l;
     cmp_status := mirror_status (cmp_status l) |}.

(** No character of the string is a dot. *)
Fixpoint no_dot (s : string) : bool :=
  match s with
  | EmptyString => true
  | String c s' => negb (Ascii.eqb c ".") && no_dot s'
  end.

(** The number of full batches among [n] rows: [n / batch_size], rounded down. *)
Definition full_batches (n : nat) : nat := Z.to_nat (Z.of_nat n / batch_size).

(** The line [list_tables_with_counts] prints for a table of a store of
    finite tables: the number of its rows, or the error of a table the store
    does not hold. *)
Definition count_line_of {Row} (source : gmap string (list Row)) (table : string)
    : Toolkit.line :=
  match source !! table with
  | Some rows => Toolkit.CountLine table (Z.of_nat (length rows))
  | None => Toolkit.CountError table "relation does not exist"
  end.

(** A store whose responses carry no count: [count] is [None]. *)
Definition countless_store {Row} : Client Row := {|
  select_range t lo hi := Returns [];
  select_count t := Returns None
|}.

(** ** Sample data *)

(** A catalog row of the public schema, and one of another schema. *)
Definition public_item (table_name : string) : item :=
  {[ "table_schema" := "public"; "table_name" := table_name ]}.
Definition schema_item (schema table_name : string) : item :=
  {[ "table_schema" := schema; "table_name" := table_name ]}.

(** * Properties *)

(** ** Table Lister *)

Lemma collect_tables_returns data tables :
  collect_tables data = Returns tables → tables = kept_names data.
Proof.
  unfold kept_names. revert tables.
  induction data as [|it rest IH]; intros tables Hret; [by simplify_eq/=|].
  cbn [collect_tables omap list_omap] in *.
  destruct (full_name_of it) as [full_name|]; [|discriminate Hret].
  rewrite filter_cons.
  destruct (matches_any EXCLUDE_PATTERNS full_name) eqn:E.
  - rewrite decide_False by done. by apply IH.
  - rewrite decide_True by done.
    destruct (collect_tables rest) as [ts|e]; [|discriminate Hret].
    simplify_eq. f_equal. by apply IH.
Qed.

Lemma get_tables_returns response names :
  get_tables response = Returns names →
  names = sorted (kept_names (catalog response)).
Proof.
  destruct response as [[[|it rest]|]|e]; cbn [get_tables catalog];
    intros H; try by simplify_eq.
  destruct (collect_tables (it :: rest)) as [ts|e] eqn:E; [|discriminate H].
  apply collect_tables_returns in E. by simplify_eq.
Qed.

Lemma sorted_elem_of xs x : x ∈ sorted xs ↔ x ∈ xs.
Proof. unfold sorted. by rewrite merge_sort_Permutation. Qed.

(** C7. Whatever the catalog answers, no name returned by [get_tables] is
    matched by a pattern of [EXCLUDE_PATTERNS] under [re.search], whether the
    name carries a schema prefix or not. *)
Theorem get_tables_excludes response names name pattern :
  get_tables response = Returns names →
  name ∈ names →
  pattern ∈ EXCLUDE_PATTERNS →
  re_search pattern name = false.
Proof.
  intros Hret Hin Hpat. apply get_tables_returns in Hret. subst names.
  apply (proj1 (sorted_elem_of _ _)) in Hin. unfold kept_names in Hin.
  apply list_elem_of_filter in Hin as [Hno _].
  unfold matches_any in Hno.
  destruct (re_search pattern name) eqn:E; [|done].
  assert (existsb (fun p => re_search p name) EXCLUDE_PATTERNS = true) as Hex.
  { apply existsb_exists. exists pattern. split; [by apply list_elem_of_In|done]. }
  congruence.
Qed.

(** The scenario of the specification, with the patterns of the source. *)
Example get_tables_scenario :
  get_tables (Returns (Some [ public_item "pg_stat"; schema_item "auth" "users";
                              public_item "profiles"; public_item "orders" ]))
  = Returns [ "orders"; "profiles" ].
Proof. vm_compute. reflexivity. Qed.

Example get_tables_keeps_inner_match :
  get_tables (Returns (Some [ schema_item "app" "pg_settings"; public_item "my_auth" ]))
  = Returns [ "app.pg_settings"; "my_auth" ].
Proof. vm_compute. reflexivity. Qed.

Lemma get_tables_excludes_witness :
  re_search "^auth" "orders" = false.
Proof.
  apply (get_tables_excludes
           (Returns (Some [ public_item "pg_stat"; schema_item "auth" "users";
                            public_item "profiles"; public_item "orders" ]))
           [ "orders"; "profiles" ] "orders" "^auth").
  - vm_compute. reflexivity.
  - apply list_elem_of_here.
  - unfold EXCLUDE_PATTERNS. do 6 apply list_elem_of_further. apply list_elem_of_here.
Defined.

(** C8, as stated, fails: a catalog that lists a table twice gives it twice. *)
Lemma get_tables_keeps_duplicates :
  ∃ names,
    get_tables (Returns (Some [ public_item "orders"; public_item "orders" ])) = Returns names
    ∧ ¬ NoDup names.
Proof.
  exists [ "orders"; "orders" ]. split; [vm_compute; reflexivity|].
  intros Hnd. apply NoDup_cons in Hnd as [Hnot _]. apply Hnot, list_elem_of_here.
Qed.

(** C8, amended.  The list returned by [get_tables] is ascending in the
    lexicographic order and is a rearrangement of the qualified names of the
    catalog that no pattern excludes; it is free of duplicates exactly when
    those names are (nothing in [get_tables] removes a repeated name). *)
Theorem get_tables_sorted response names :
  get_tables response = Returns names →
  StronglySorted String.le names
  ∧ names ≡ₚ kept_names (catalog response)
  ∧ (NoDup names ↔ NoDup (kept_names (catalog response))).
Proof.
  intros Hret. apply get_tables_returns in Hret. subst names.
  assert (sorted (kept_names (catalog response)) ≡ₚ kept_names (catalog response))
    as Hperm by apply merge_sort_Permutation.
  split; [apply (StronglySorted_merge_sort String.le)|].
  split; [exact Hperm|]. by rewrite Hperm.
Qed.

(** A public row without a table name: [get_tables] raises. *)
Example get_tables_name_missing :
  get_tables (Returns (Some [ public_item "orders"; {[ "table_schema" := "public" ]} ]))
  = Raises "expected string or bytes-like object".
Proof. vm_compute. reflexivity. Qed.

Lemma get_tables_sorted_witness :
  StronglySorted String.le [ "orders"; "profiles" ].
Proof.
  apply (get_tables_sorted
           (Returns (Some [ public_item "profiles"; public_item "pg_stat";
                            public_item "orders" ]))
           [ "orders"; "profiles" ]).
  vm_compute. reflexivity.
Defined.

(** ** Row Counter *)

Lemma append_cons_split (p : string) (c : ascii) (s : string) :
  p +:+ String c s = (p +:+ String c "") +:+ s.
Proof.
  induction p as [|d p IH]; [done|].
  change (String d (p +:+ String c s) = String d ((p +:+ String c "") +:+ s)).
  by rewrite IH.
Qed.

Lemma pretty_N_go_suffix (x : N) (s : string) :
  ∃ p, pretty_N_go x s = p +:+ s.
Proof.
  revert s. induction (N.lt_wf_0 x) as [x _ IH]; intros s.
  destruct (decide (0 < x)%N) as [Hpos|Hzero].
  - rewrite pretty_N_go_step by done.
    destruct (IH (x `div` 10)%N) with (s := String (pretty_N_char (x `mod` 10)) s) as [p Hp].
    { by apply N.div_lt. }
    exists (p +:+ String (pretty_N_char (x `mod` 10)) ""). rewrite Hp.
    apply append_cons_split.
  - assert (x = 0%N) as -> by lia. exists "". by rewrite pretty_N_go_0.
Qed.

Lemma last_char_app p c : last_char (p +:+ String c "") = Some c.
Proof.
  induction p as [|d p IH]; [done|].
  change (String d p +:+ String c "") with (String d (p +:+ String c "")).
  cbn [last_char]. rewrite IH. by destruct p.
Qed.

Lemma pretty_N_char_digit (x : N) :
  pretty_N_char x ∈ [ "0"; "1"; "2"; "3"; "4"; "5"; "6"; "7"; "8"; "9" ]%char.
Proof.
  unfold pretty_N_char. repeat case_match; set_solver.
Qed.

Lemma pretty_N_last_digit (x : N) :
  ∃ c, last_char (pretty x) = Some c
       ∧ c ∈ [ "0"; "1"; "2"; "3"; "4"; "5"; "6"; "7"; "8"; "9" ]%char.
Proof.
  unfold pretty, pretty_N. case_decide as Hx.
  - exists "0"%char. split; [done|]. set_solver.
  - rewrite pretty_N_go_step by lia.
    destruct (pretty_N_go_suffix (x `div` 10)%N (String (pretty_N_char (x `mod` 10)) "")) as [p ->].
    exists (pretty_N_char (x `mod` 10)). split; [apply last_char_app|apply pretty_N_char_digit].
Qed.

Lemma pretty_nonneg_not_Error (k : Z) : 0 ≤ k → pretty k ≠ "Error".
Proof.
  intros Hk Heq.
  assert (∃ c, last_char (pretty k) = Some c
               ∧ c ∈ [ "0"; "1"; "2"; "3"; "4"; "5"; "6"; "7"; "8"; "9" ]%char) as (c & Hc & Hd).
  { destruct k as [|q|q]; [| |lia].
    - exists "0"%char. split; [done|set_solver].
    - apply (pretty_N_last_digit (Npos q)). }
  rewrite Heq in Hc. cbn in Hc. simplify_eq.
  repeat (apply elem_of_cons in Hd as [Hd|Hd]; [discriminate Hd|]).
  by apply not_elem_of_nil in Hd.
Qed.

Lemma count_or_0_id (count : option Z) : count_or_0 count = default 0 count.
Proof. destruct count as [c|]; [|done]. cbn. by case_decide. Qed.

(** C6, as stated, fails.  A response that carries no count leaves the count
    undetermined, yet [get_table_counts] gives 0 for it, not the sentinel, and
    both callers print it as they print the count of an empty table. *)
Lemma get_table_counts_none_like_zero :
  select_count (@countless_store Z) "orders" = Returns None
  ∧ get_table_counts (@countless_store Z) "orders" = 0
  ∧ get_table_counts (table_store {[ "orders" := ([] : list Z) ]}) "orders" = 0
  ∧ show_tables [ "orders" ] (@countless_store Z)
    = show_tables [ "orders" ] (table_store {[ "orders" := ([] : list Z) ]})
  ∧ cell_str (CInt (get_table_counts (@countless_store Z) "orders"))
    = cell_str (CInt (get_table_counts (table_store {[ "orders" := ([] : list Z) ]}) "orders")).
Proof. repeat split; vm_compute; reflexivity. Qed.

(** C6, amended.  When the store answers counts that are not negative, the
    value of [get_table_counts] is a count that is not negative or the
    sentinel -1; the call itself never raises, and -1 is returned exactly
    when the count request raises.  A response that carries no count is not
    given the sentinel: it is read as 0 and printed as "0", as a true zero
    is.  Both callers render the sentinel apart from every count that is not
    negative, zero included: [show_tables] prints "Error" for it, and
    [compare_tables] prints "-1". *)
Theorem get_table_counts_unknown {Row} (supabase : Client Row) (table_name : string) :
  (∀ c, select_count supabase table_name = Returns (Some c) → 0 ≤ c) →
  (0 ≤ get_table_counts supabase table_name ∨ get_table_counts supabase table_name = -1)
  ∧ (get_table_counts supabase table_name = -1
     ↔ ∃ e, select_count supabase table_name = Raises e)
  ∧ (select_count supabase table_name = Returns None →
       get_table_counts supabase table_name = 0
       ∧ show_count (get_table_counts supabase table_name) = "0"
       ∧ cell_str (CInt (get_table_counts supabase table_name)) = "0")
  ∧ show_count (-1) = "Error"
  ∧ show_count 0 = "0"
  ∧ (∀ k, 0 ≤ k → show_count k ≠ show_count (-1))
  ∧ (∀ k, 0 ≤ k → cell_str (CInt k) ≠ cell_str (CInt (-1))).
Proof.
  intros Hstore. unfold get_table_counts.
  split; [|split; [|split; [|split; [done|split; [done|split]]]]].
  - destruct (select_count supabase table_name) as [[c|]|e] eqn:E; cbn.
    + left. case_decide; [lia|]. by apply Hstore.
    + by left.
    + by right.
  - split.
    + destruct (select_count supabase table_name) as [[c|]|e] eqn:E; cbn.
      * case_decide; [done|]. intros ->. specialize (Hstore (-1) eq_refl). lia.
      * done.
      * by exists e.
    + by intros [e ->].
  - by intros ->.
  - intros k Hk. unfold show_count. rewrite decide_True by done.
    rewrite decide_False by lia. by apply pretty_nonneg_not_Error.
  - intros k Hk Heq. unfold cell_str in Heq. apply (inj pretty) in Heq. lia.
Qed.

Lemma get_table_counts_unknown_witness :
  0 ≤ get_table_counts (table_store {[ "orders" := [ 4; 5; 6 ] ]}) "orders"
  ∨ get_table_counts (table_store {[ "orders" := [ 4; 5; 6 ] ]}) "orders" = -1.
Proof.
  apply (get_table_counts_unknown (table_store {[ "orders" := [ 4; 5; 6 ] ]}) "orders").
  intros c Hc. vm_compute in Hc. injection Hc as <-. lia.
Defined.

(** A table the store does not hold: the count request raises, the value is
    the sentinel, and the two callers print "Error" and "-1" for it. *)
Example get_table_counts_missing_table :
  get_table_counts (table_store (∅ : gmap string (list Z))) "orders" = -1
  ∧ show_tables [ "orders" ] (table_store (∅ : gmap string (list Z)))
    = [ (1%nat, "orders", "Error") ]
  ∧ cell_str (CInt (-1)) = "-1".
Proof. repeat split; vm_compute; reflexivity. Qed.

(** A response without a count is read as zero rows. *)
Example get_table_counts_no_count :
  get_table_counts {| select_range := fun _ _ _ => Returns ([] : list Z);
                      select_count := fun _ => Returns None |} "orders" = 0.
Proof. reflexivity. Qed.

(** ** Drift Comparator *)

Lemma all_tables_elem_of cloud_tables local_tables t :
  t ∈ all_tables cloud_tables local_tables ↔ t ∈ cloud_tables ∨ t ∈ local_tables.
Proof.
  unfold all_tables. rewrite sorted_elem_of, elem_of_elements, elem_of_list_to_set.
  apply elem_of_app.
Qed.

Lemma all_tables_NoDup cloud_tables local_tables :
  NoDup (all_tables cloud_tables local_tables).
Proof.
  unfold all_tables, sorted. rewrite merge_sort_Permutation. apply NoDup_elements.
Qed.

Lemma all_tables_sorted cloud_tables local_tables :
  StronglySorted String.le (all_tables cloud_tables local_tables).
Proof. apply (StronglySorted_merge_sort String.le). Qed.

Lemma compare_tables_names {Row} cloud_tables local_tables (supabase_cloud supabase_local : Client Row) :
  cmp_table <$> compare_tables cloud_tables local_tables supabase_cloud supabase_local
  = all_tables cloud_tables local_tables.
Proof.
  unfold compare_tables. rewrite <- list_fmap_compose.
  induction (all_tables cloud_tables local_tables) as [|t ts IH]; [done|].
  cbn. by rewrite IH.
Qed.

(** C5. [compare_tables] prints one line per table of the sorted union of
    the two lists.  A table missing from the cloud list is "Only in LOCAL", a
    table missing from the local list is "Only in CLOUD"; a table of both
    lists is "In sync" when the two counts are equal and "Different row
    counts" with the two counts otherwise.  The two count statuses occur only
    for a table of both lists. *)
Theorem compare_tables_classifies {Row} (cloud_tables local_tables : list string)
    (supabase_cloud supabase_local : Client Row) :
  let lines := compare_tables cloud_tables local_tables supabase_cloud supabase_local in
  StronglySorted String.le (cmp_table <$> lines)
  ∧ NoDup (cmp_table <$> lines)
  ∧ (∀ t, t ∈ cmp_table <$> lines ↔ t ∈ cloud_tables ∨ t ∈ local_tables)
  ∧ ∀ l, l ∈ lines →
      let t := cmp_table l in
      let c := get_table_counts supabase_cloud t in
      let n := get_table_counts supabase_local t in
      (t ∉ cloud_tables → t ∈ local_tables ∧ cmp_status l = OnlyInLocal
                          ∧ cmp_cloud l = CStr "N/A" ∧ cmp_local l = CInt n)
      ∧ (t ∈ cloud_tables → t ∉ local_tables →
           cmp_status l = OnlyInCloud ∧ cmp_cloud l = CInt c ∧ cmp_local l = CStr "N/A")
      ∧ (t ∈ cloud_tables → t ∈ local_tables →
           cmp_cloud l = CInt c ∧ cmp_local l = CInt n
           ∧ (c = n → cmp_status l = InSync)
           ∧ (c ≠ n → cmp_status l = DifferentRowCounts (CInt c) (CInt n)))
      ∧ (cmp_status l = InSync ∨ (∃ x y, cmp_status l = DifferentRowCounts x y) →
           t ∈ cloud_tables ∧ t ∈ local_tables).
Proof.
  intros lines. subst lines. rewrite compare_tables_names.
  split; [apply all_tables_sorted|]. split; [apply all_tables_NoDup|].
  split; [apply all_tables_elem_of|].
  intros l Hl. unfold compare_tables in Hl.
  apply list_elem_of_fmap in Hl as (t & -> & Ht).
  apply all_tables_elem_of in Ht.
  unfold compare_one; cbn.
  destruct (decide (t ∈ cloud_tables)) as [Hc|Hc];
    destruct (decide (t ∈ local_tables)) as [Hl|Hl].
  - rewrite (decide_False (P := t ∉ cloud_tables)) by tauto.
    rewrite (decide_False (P := t ∉ local_tables)) by tauto.
    cbn [cell_eqb].
    split; [tauto|]. split; [tauto|]. split; [|tauto].
    intros _ _. split; [done|]. split; [done|]. split.
    + intros ->. by rewrite bool_decide_eq_true_2.
    + intros Hne. by rewrite bool_decide_eq_false_2.
  - rewrite (decide_False (P := t ∉ cloud_tables)) by tauto.
    rewrite (decide_True (P := t ∉ local_tables)) by tauto.
    split; [tauto|]. split; [done|]. split; [tauto|].
    intros [?|(? & ? & ?)]; discriminate.
  - rewrite (decide_True (P := t ∉ cloud_tables)) by tauto.
    split; [done|]. split; [tauto|]. split; [tauto|].
    intros [?|(? & ? & ?)]; discriminate.
  - tauto.
Qed.

(** The scenario of the specification: a on the source only, b on both with
    five rows, c on the target only. *)
Example compare_tables_scenario :
  compare_tables [ "a"; "b" ] [ "b"; "c" ]
    (table_store {[ "a" := seqZ 0 10; "b" := seqZ 0 5 ]})
    (table_store {[ "b" := seqZ 0 5; "c" := seqZ 0 3 ]})
  = [ {| cmp_table := "a"; cmp_cloud := CInt 10; cmp_local := CStr "N/A";
         cmp_status := OnlyInCloud |};
      {| cmp_table := "b"; cmp_cloud := CInt 5; cmp_local := CInt 5;
         cmp_status := InSync |};
      {| cmp_table := "c"; cmp_cloud := CStr "N/A"; cmp_local := CInt 3;
         cmp_status := OnlyInLocal |} ].
Proof. vm_compute. reflexivity. Qed.

(** C10. For a table of both lists whose count request raises on both
    stores, both counts are the sentinel -1, the two sentinels are equal, and
    the line of the table says "In sync". *)
Theorem compare_tables_both_unknown {Row} (cloud_tables local_tables : list string)
    (supabase_cloud supabase_local : Client Row) (table e1 e2 : string) :
  table ∈ cloud_tables →
  table ∈ local_tables →
  select_count supabase_cloud table = Raises e1 →
  select_count supabase_local table = Raises e2 →
  get_table_counts supabase_cloud table = -1
  ∧ get_table_counts supabase_local table = -1
  ∧ {| cmp_table := table; cmp_cloud := CInt (-1); cmp_local := CInt (-1);
       cmp_status := InSync |}
    ∈ compare_tables cloud_tables local_tables supabase_cloud supabase_local.
Proof.
  intros Hc Hl Hec Hel.
  assert (get_table_counts supabase_cloud table = -1) as Hcc
    by (unfold get_table_counts; by rewrite Hec).
  assert (get_table_counts supabase_local table = -1) as Hcl
    by (unfold get_table_counts; by rewrite Hel).
  split; [done|]. split; [done|].
  unfold compare_tables. apply list_elem_of_fmap. exists table. split.
  - unfold compare_one. rewrite Hcc, Hcl.
    rewrite (decide_True (P := table ∈ cloud_tables)) by done.
    rewrite (decide_True (P := table ∈ local_tables)) by done.
    rewrite (decide_False (P := table ∉ cloud_tables)) by tauto.
    rewrite (decide_False (P := table ∉ local_tables)) by tauto.
    done.
  - apply all_tables_elem_of. by left.
Qed.

Lemma compare_tables_both_unknown_witness :
  {| cmp_table := "orders"; cmp_cloud := CInt (-1); cmp_local := CInt (-1);
     cmp_status := InSync |}
  ∈ compare_tables [ "orders" ] [ "orders" ]
      (table_store (∅ : gmap string (list Z))) (table_store (∅ : gmap string (list Z))).
Proof.
  apply (compare_tables_both_unknown [ "orders" ] [ "orders" ]
           (table_store (∅ : gmap string (list Z))) (table_store (∅ : gmap string (list Z)))
           "orders" "relation does not exist" "relation does not exist").
  - apply list_elem_of_here.
  - apply list_elem_of_here.
  - vm_compute. reflexivity.
  - vm_compute. reflexivity.
Defined.

(** ** Paginated Copier *)

Lemma page_size_pos : 0 < page_size.
Proof. reflexivity. Qed.

Lemma pages_of_0 : pages_of 0 = 0%nat.
Proof. reflexivity. Qed.

Lemma pages_of_step (n : nat) :
  (0 < n)%nat → pages_of n = S (pages_of (n - Z.to_nat page_size)).
Proof.
  intros Hn. unfold pages_of, page_size.
  destruct (decide (n ≤ 1000)%nat) as [Hle|Hgt].
  - replace (n - Z.to_nat 1000)%nat with 0%nat by lia.
    change ((Z.of_nat 0 + 1000 - 1) / 1000) with 0. cbn [Z.to_nat].
    assert ((Z.of_nat n + 1000 - 1) / 1000 = 1) as ->; [|done].
    symmetry. apply (Z.div_unique _ 1000 1 (Z.of_nat n - 1)); lia.
  - replace (Z.of_nat (n - Z.to_nat 1000) + 1000 - 1)
      with (Z.of_nat n + 1000 - 1 - 1 * 1000) by lia.
    assert ((Z.of_nat n + 1000 - 1) / 1000
            = (Z.of_nat n + 1000 - 1 - 1 * 1000) / 1000 + 1) as ->.
    { rewrite <- Z.div_add by lia. f_equal. lia. }
    rewrite Z2Nat.inj_add; [|apply Z.div_pos; lia|lia].
    change (Z.to_nat 1) with 1%nat. lia.
Qed.

Lemma page_ranges_S (table : string) (start : Z) (n : nat) :
  page_ranges table start (S n)
  = (table, start, start + page_size - 1) :: page_ranges table (start + page_size) n.
Proof.
  unfold page_ranges. cbn [seq fmap list_fmap]. f_equal.
  - f_equal; [f_equal|]; lia.
  - rewrite <- fmap_S_seq, <- list_fmap_compose. apply list_fmap_ext.
    intros _ k _. cbn. f_equal; [f_equal|]; lia.
Qed.

Lemma length_page_ranges table start n : length (page_ranges table start n) = n.
Proof. unfold page_ranges. by rewrite length_fmap, length_seq. Qed.

Lemma insert_rows_run {Row} (refuses : refusal Row) (table : string) (rows : list Row) :
  ∀ target total target' total' evs,
    insert_rows refuses table rows target total = (target', total', evs) →
    fetches evs = []
    ∧ started evs = []
    ∧ attempted evs = (fun row => (table, row)) <$> rows
    ∧ total' + Z.of_nat (length (failures evs)) = total + Z.of_nat (length rows)
    ∧ total ≤ total'
    ∧ Z.of_nat (length (default [] (target' !! table)))
      = Z.of_nat (length (default [] (target !! table))) + (total' - total).
Proof.
  induction rows as [|row rest IH]; intros target total target' total' evs Hrun.
  - cbn in Hrun. simplify_eq. cbn. repeat split; lia.
  - cbn [insert_rows] in Hrun. unfold insert_execute in Hrun.
    destruct (refuses target table row) as [e|] eqn:Href.
    + destruct (insert_rows refuses table rest target total) as [[t1 n1] evs1] eqn:Hrest.
      simplify_eq. apply IH in Hrest as (Hf & Hs & Ha & Hcount & Hle & Hlen).
      unfold fetches, started, attempted, failures in *.
      cbn. rewrite Hf, Hs, Ha. cbn. repeat split; try done; lia.
    + destruct (insert_rows refuses table rest _ (total + 1)) as [[t1 n1] evs1] eqn:Hrest.
      simplify_eq. apply IH in Hrest as (Hf & Hs & Ha & Hcount & Hle & Hlen).
      rewrite lookup_insert_eq in Hlen. cbn [from_option id] in Hlen.
      rewrite length_app in Hlen. cbn [length] in Hlen.
      unfold fetches, started, attempted, failures in *.
      cbn. rewrite Hf, Hs, Ha. cbn. repeat split; try done; lia.
Qed.

Lemma migrate_loop_S {Row} fuel (supabase_cloud : Client Row) refuses table start total target :
  migrate_loop (S fuel) supabase_cloud refuses table start total target
  = match select_range supabase_cloud table start (start + page_size - 1) with
    | Raises e =>
        Some (target, total,
              [Fetch table start (start + page_size - 1); Print (ErrorDuringMigration table e)])
    | Returns [] => Some (target, total, [Fetch table start (start + page_size - 1)])
    | Returns rows =>
        let '(target', total', inserts) := insert_rows refuses table rows target total in
        match migrate_loop fuel supabase_cloud refuses table (start + page_size) total' target' with
        | None => None
        | Some (target'', total'', evs) =>
            Some (target'', total'',
                  Fetch table start (start + page_size - 1)
                  :: inserts ++ Print (CopiedRecords (length rows) total') :: Sleep :: evs)
        end
    end.
Proof. reflexivity. Qed.

Lemma slice_page {Row} (rows : list Row) (k : nat) :
  slice rows (Z.of_nat k) (Z.of_nat k + page_size - 1)
  = take (Z.to_nat page_size) (drop k rows).
Proof.
  unfold slice. rewrite Nat2Z.id. do 2 f_equal. lia.
Qed.

Lemma fetches_app {Row} (xs ys : list (event Row)) :
  fetches (xs ++ ys) = fetches xs ++ fetches ys.
Proof. apply omap_app. Qed.
Lemma started_app {Row} (xs ys : list (event Row)) :
  started (xs ++ ys) = started xs ++ started ys.
Proof. apply omap_app. Qed.
Lemma attempted_app {Row} (xs ys : list (event Row)) :
  attempted (xs ++ ys) = attempted xs ++ attempted ys.
Proof. apply omap_app. Qed.
Lemma failures_app {Row} (xs ys : list (event Row)) :
  failures (xs ++ ys) = failures xs ++ failures ys.
Proof. apply omap_app. Qed.

(** Reads the requests, inserts, failures and started tables off a list of
    events whose head is known. *)
Ltac read_events :=
  repeat first
    [ rewrite fetches_app | rewrite started_app
    | rewrite attempted_app | rewrite failures_app
    | progress change (fetches (Fetch ?t ?a ?b :: ?l)) with ((t, a, b) :: fetches l)
    | progress change (fetches (Insert _ _ :: ?l)) with (fetches l)
    | progress change (fetches (Sleep :: ?l)) with (fetches l)
    | progress change (fetches (Prompt :: ?l)) with (fetches l)
    | progress change (fetches (Print _ :: ?l)) with (fetches l)
    | progress change (attempted (Insert ?t ?r :: ?l)) with ((t, r) :: attempted l)
    | progress change (attempted (Fetch _ _ _ :: ?l)) with (attempted l)
    | progress change (attempted (Sleep :: ?l)) with (attempted l)
    | progress change (attempted (Prompt :: ?l)) with (attempted l)
    | progress change (attempted (Print _ :: ?l)) with (attempted l)
    | progress change (started (Print (ProgressTable _ _ ?t) :: ?l)) with (t :: started l)
    | progress change (started (Print (MigratingTable _) :: ?l)) with (started l)
    | progress change (started (Print (CopiedRecords _ _) :: ?l)) with (started l)
    | progress change (started (Print (CompletedTable _ _) :: ?l)) with (started l)
    | progress change (started (Print (SkippingTable _ _) :: ?l)) with (started l)
    | progress change (started (Print (FoundTables _) :: ?l)) with (started l)
    | progress change (started (Print MigrationCompleted :: ?l)) with (started l)
    | progress change (started (Print MigrationCancelled :: ?l)) with (started l)
    | progress change (started (Print NoTablesToMigrate :: ?l)) with (started l)
    | progress change (started (Print (ListedTable _ _) :: ?l)) with (started l)
    | progress change (started (Print (ErrorInsertingRow _ _) :: ?l)) with (started l)
    | progress change (started (Print (ErrorDuringMigration _ _) :: ?l)) with (started l)
    | progress change (started (Fetch _ _ _ :: ?l)) with (started l)
    | progress change (started (Insert _ _ :: ?l)) with (started l)
    | progress change (started (Sleep :: ?l)) with (started l)
    | progress change (started (Prompt :: ?l)) with (started l)
    | progress change (failures (Print (ErrorInsertingRow ?t ?e) :: ?l)) with ((t, e) :: failures l)
    | progress change (failures (Print (CopiedRecords _ _) :: ?l)) with (failures l)
    | progress change (failures (Print (MigratingTable _) :: ?l)) with (failures l)
    | progress change (failures (Fetch _ _ _ :: ?l)) with (failures l)
    | progress change (failures (Insert _ _ :: ?l)) with (failures l)
    | progress change (failures (Sleep :: ?l)) with (failures l)
    | progress change (fetches []) with (@nil (string * Z * Z))
    | progress change (attempted (@nil (event ?R))) with (@nil (string * R))
    | progress change (started []) with (@nil string) ].

(** On a store that holds [rows] in [table], the loop started at position [k]
    returns once the fuel exceeds the rows left: it requests every page that
    holds rows and one more, and issues one insert per row left. *)
Lemma migrate_loop_table_store {Row} (tables : gmap string (list Row))
    (refuses : refusal Row) (table : string) (rows : list Row) :
  tables !! table = Some rows →
  ∀ fuel k total target,
    (length (drop k rows) < fuel)%nat →
    ∃ target' total' evs,
      migrate_loop fuel (table_store tables) refuses table (Z.of_nat k) total target
      = Some (target', total', evs)
      ∧ fetches evs = page_ranges table (Z.of_nat k) (S (pages_of (length (drop k rows))))
      ∧ started evs = []
      ∧ attempted evs = (fun row => (table, row)) <$> drop k rows
      ∧ total' + Z.of_nat (length (failures evs)) = total + Z.of_nat (length (drop k rows))
      ∧ total ≤ total'
      ∧ Z.of_nat (length (default [] (target' !! table)))
        = Z.of_nat (length (default [] (target !! table))) + (total' - total).
Proof.
  intros Htab fuel. induction fuel as [|fuel IH]; intros k total target Hfuel; [lia|].
  rewrite migrate_loop_S. unfold table_store at 1. cbn [select_range].
  rewrite Htab, slice_page.
  destruct (take (Z.to_nat page_size) (drop k rows)) as [|row page] eqn:Hpage.
  - assert (drop k rows = []) as Hrem.
    { destruct (drop k rows) as [|r rem]; [done|].
      pose proof page_size_pos.
      destruct (Z.to_nat page_size) as [|n] eqn:Hn; [lia|]. discriminate Hpage. }
    rewrite Hrem. eexists _, _, _. split; [done|].
    cbn [length]. rewrite pages_of_0, page_ranges_S. read_events.
    repeat split; try done; lia.
  - destruct (insert_rows refuses table (row :: page) target total)
      as [[target1 total1] inserts] eqn:Hins.
    apply insert_rows_run in Hins as (Hf1 & Hs1 & Ha1 & Hc1 & Hle1 & Hlen1).
    assert (drop (k + Z.to_nat page_size) rows = drop (Z.to_nat page_size) (drop k rows))
      as Hdrop by (by rewrite drop_drop).
    assert (0 < length (drop k rows))%nat as Hpos.
    { destruct (drop k rows); [|cbn; lia]. by rewrite take_nil in Hpage. }
    pose proof page_size_pos as HP.
    destruct (IH (k + Z.to_nat page_size)%nat total1 target1)
      as (target2 & total2 & evs & Hrun & Hf & Hs & Ha & Hc & Hle & Hlen).
    { rewrite Hdrop, length_drop. lia. }
    replace (Z.of_nat (k + Z.to_nat page_size)) with (Z.of_nat k + page_size) in Hrun, Hf by lia.
    rewrite Hrun. eexists _, _, _. split; [done|].
    rewrite Hdrop, length_drop in Hf, Hc.
    rewrite Hdrop in Ha.
    assert (length (row :: page) + length (drop (Z.to_nat page_size) (drop k rows))
            = length (drop k rows))%nat as Hsum.
    { rewrite <- Hpage, <- length_app, take_drop. done. }
    rewrite length_drop in Hsum.
    read_events. rewrite Hf1, Hs1, Ha1, Hf, Hs, Ha.
    split.
    { rewrite (pages_of_step (length (drop k rows))) by done.
      by rewrite (page_ranges_S table (Z.of_nat k)). }
    split; [done|]. split.
    { rewrite <- Hpage, <- fmap_app. by rewrite take_drop. }
    split; [rewrite length_app; lia|].
    split; lia.
Qed.

Lemma pages_of_bounds (n : nat) :
  Z.of_nat n ≤ Z.of_nat (pages_of n) * page_size
  ∧ ∀ i : nat, (i < pages_of n)%nat → Z.of_nat i * page_size < Z.of_nat n.
Proof.
  unfold pages_of, page_size.
  assert (0 ≤ (Z.of_nat n + 1000 - 1) / 1000) as Hq by (apply Z.div_pos; lia).
  pose proof (Z.div_mod (Z.of_nat n + 1000 - 1) 1000 ltac:(lia)) as Hdm.
  pose proof (Z.mod_pos_bound (Z.of_nat n + 1000 - 1) 1000 ltac:(lia)) as Hmod.
  split; [lia|]. intros i Hi. lia.
Qed.

Lemma slice_page_nil {Row} (rows : list Row) (k : nat) :
  slice rows (Z.of_nat k) (Z.of_nat k + page_size - 1) = [] ↔ (length rows ≤ k)%nat.
Proof.
  rewrite slice_page. pose proof page_size_pos as HP. split.
  - intros Hnil. apply (f_equal length) in Hnil.
    rewrite length_take, length_drop in Hnil. cbn in Hnil. lia.
  - intros Hle. rewrite drop_ge by done. apply take_nil.
Qed.

(** Which of the requested pages hold rows: every page before number
    [pages_of (length rows)] does, and that one is empty. *)
Lemma pages_nonempty_then_empty {Row} (rows : list Row) :
  (∀ i : nat, (i < pages_of (length rows))%nat →
     slice rows (Z.of_nat i * page_size) (Z.of_nat i * page_size + page_size - 1) ≠ [])
  ∧ slice rows (Z.of_nat (pages_of (length rows)) * page_size)
      (Z.of_nat (pages_of (length rows)) * page_size + page_size - 1) = [].
Proof.
  destruct (pages_of_bounds (length rows)) as [Hup Hlow].
  pose proof page_size_pos as HP. split.
  - intros i Hi Hnil. specialize (Hlow i Hi).
    replace (Z.of_nat i * page_size) with (Z.of_nat (i * Z.to_nat page_size)) in Hnil by lia.
    apply slice_page_nil in Hnil. lia.
  - replace (Z.of_nat (pages_of (length rows)) * page_size)
      with (Z.of_nat (pages_of (length rows) * Z.to_nat page_size)) by lia.
    apply slice_page_nil. lia.
Qed.

(** C1, as stated, fails.  On a table of 2500 rows [migrate_table] sends four
    range requests, not the three of the claim: the short third page does not
    end the loop, the range requested for it is [2000, 2999], and a fourth
    request, answered by an empty page, follows.  The number of requests is
    not 2500 / 1000 rounded up.  The 2500 inserts are issued. *)
Lemma migrate_table_2500_rows_four_requests :
  (fun run => (fetches run.2, length (attempted run.2)))
    <$> migrate_table 10 (table_store {[ "orders" := seqZ 0 2500 ]}) accepts_all "orders" ∅
  = Some ([ ("orders", 0, 999); ("orders", 1000, 1999); ("orders", 2000, 2999);
            ("orders", 3000, 3999) ], 2500%nat)
  ∧ (fun run => fetches run.2)
      <$> migrate_table 10 (table_store {[ "orders" := seqZ 0 2500 ]}) accepts_all "orders" ∅
    ≠ Some [ ("orders", 0, 999); ("orders", 1000, 1999); ("orders", 2000, 2499) ]
  ∧ (fun run => length (fetches run.2))
      <$> migrate_table 10 (table_store {[ "orders" := seqZ 0 2500 ]}) accepts_all "orders" ∅
    ≠ Some (pages_of 2500).
Proof.
  split; [vm_compute; reflexivity|].
  split; vm_compute; intros H; discriminate H.
Qed.

Lemma migrate_table_table_store {Row} (others : gmap string (list Row))
    (refuses : refusal Row) (table : string) (rows : list Row)
    (target : database Row) (extra : nat) :
  ∃ target' total evs,
    migrate_table (S (length rows + extra)) (table_store (<[table := rows]> others))
      refuses table target
    = Some (target', Returns total, evs)
    ∧ fetches evs = page_ranges table 0 (S (pages_of (length rows)))
    ∧ attempted evs = (fun row => (table, row)) <$> rows
    ∧ total + Z.of_nat (length (failures evs)) = Z.of_nat (length rows)
    ∧ 0 ≤ total
    ∧ Z.of_nat (length (default [] (target' !! table)))
      = Z.of_nat (length (default [] (target !! table))) + total.
Proof.
  destruct (migrate_loop_table_store (<[table := rows]> others) refuses table rows
              (lookup_insert_eq _ _ _) (S (length rows + extra)) 0 0 target)
    as (target' & total & evs & Hrun & Hf & Hs & Ha & Hc & Hle & Hlen).
  { rewrite drop_0. lia. }
  rewrite drop_0 in Hf, Ha, Hc.
  unfold migrate_table. change (Z.of_nat 0) with 0 in Hrun, Hf. rewrite Hrun.
  eexists _, _, _. split; [done|]. read_events.
  repeat split; try done; lia.
Qed.

(** C1, amended.  On a table of R rows, whatever the target refuses,
    [migrate_table] returns (the fuel R + 1 is enough); it requests the
    consecutive ranges [k * 1000, k * 1000 + 999] from 0 on, one for each of
    the R / 1000 (rounded up) pages that hold rows and one more, which is the
    only empty page and ends the loop; a page shorter than 1000 rows does not
    end it.  One insert is issued for each of the R rows, in order. *)
Theorem migrate_table_requests {Row} (others : gmap string (list Row))
    (refuses : refusal Row) (table : string) (rows : list Row)
    (target : database Row) (extra : nat) :
  ∃ target' total evs,
    migrate_table (S (length rows + extra)) (table_store (<[table := rows]> others))
      refuses table target
    = Some (target', Returns total, evs)
    ∧ fetches evs = page_ranges table 0 (S (pages_of (length rows)))
    ∧ length (fetches evs) = S (pages_of (length rows))
    ∧ attempted evs = (fun row => (table, row)) <$> rows
    ∧ length (attempted evs) = length rows
    ∧ (∀ i : nat, (i < pages_of (length rows))%nat →
         slice rows (Z.of_nat i * page_size) (Z.of_nat i * page_size + page_size - 1) ≠ [])
    ∧ slice rows (Z.of_nat (pages_of (length rows)) * page_size)
        (Z.of_nat (pages_of (length rows)) * page_size + page_size - 1) = [].
Proof.
  destruct (migrate_table_table_store others refuses table rows target extra)
    as (target' & total & evs & Hrun & Hf & Ha & _).
  exists target', total, evs. split; [done|]. split; [done|].
  split; [by rewrite Hf, length_page_ranges|]. split; [done|].
  split; [by rewrite Ha, length_fmap|]. apply pages_nonempty_then_empty.
Qed.

(** C4.  Whatever rows the target refuses, [migrate_table] issues an insert
    for every row of every page, in order: a refused row stops neither its
    page nor the pages after it, and the requests sent to the source are
    those of a run in which nothing is refused.  Every refused insert prints
    one error line; the inserts counted in the returned total and the error
    lines add up to the inserts issued, and the total is the number of rows
    the target gained. *)
Theorem migrate_table_isolates_failures {Row} (others : gmap string (list Row))
    (refuses : refusal Row) (table : string) (rows : list Row)
    (target : database Row) (extra : nat) :
  ∃ target' total evs,
    migrate_table (S (length rows + extra)) (table_store (<[table := rows]> others))
      refuses table target
    = Some (target', Returns total, evs)
    ∧ attempted evs = (fun row => (table, row)) <$> rows
    ∧ total + Z.of_nat (length (failures evs)) = Z.of_nat (length (attempted evs))
    ∧ 0 ≤ total
    ∧ Z.of_nat (length (default [] (target' !! table)))
      = Z.of_nat (length (default [] (target !! table))) + total
    ∧ ∃ target0 total0 evs0,
        migrate_table (S (length rows + extra)) (table_store (<[table := rows]> others))
          accepts_all table target
        = Some (target0, Returns total0, evs0)
        ∧ fetches evs = fetches evs0
        ∧ attempted evs = attempted evs0.
Proof.
  destruct (migrate_table_table_store others refuses table rows target extra)
    as (target' & total & evs & Hrun & Hf & Ha & Hc & Hpos & Hlen).
  destruct (migrate_table_table_store others accepts_all table rows target extra)
    as (target0 & total0 & evs0 & Hrun0 & Hf0 & Ha0 & _).
  exists target', total, evs. split; [done|]. split; [done|].
  split; [by rewrite Ha, length_fmap|]. split; [done|]. split; [done|].
  exists target0, total0, evs0. split; [done|]. by rewrite Hf, Hf0, Ha, Ha0.
Qed.

(** A page of five rows, of which the target refuses the second and the
    fourth: five inserts are issued, three counted, two error lines printed. *)
Example migrate_table_two_refused :
  (fun run => (run.1.2, attempted run.2, failures run.2, run.1.1 !! "t"))
    <$> migrate_table 5 (table_store {[ "t" := [ 10; 11; 12; 13; 14 ] ]})
          (refuses_rows [ 11; 13 ]) "t" ∅
  = Some (Returns 3,
          [ ("t", 10); ("t", 11); ("t", 12); ("t", 13); ("t", 14) ],
          [ ("t", "duplicate key value"); ("t", "duplicate key value") ],
          Some [ 10; 12; 14 ]).
Proof. vm_compute. reflexivity. Qed.

(** ** Migration Orchestrator *)

(** The loop returns as soon as a request raises or answers an empty page. *)
Lemma migrate_loop_exhausts {Row} (supabase_cloud : Client Row) (refuses : refusal Row)
    (table : string) (fuel : nat) :
  ∀ start total target,
    exhausts fuel supabase_cloud table start = true →
    ∃ target' total' evs rest,
      migrate_loop fuel supabase_cloud refuses table start total target
      = Some (target', total', evs)
      ∧ started evs = []
      ∧ fetches evs = (table, start, start + page_size - 1) :: rest.
Proof.
  induction fuel as [|fuel IH]; intros start total target Hex; [discriminate Hex|].
  rewrite migrate_loop_S. cbn [exhausts] in Hex.
  destruct (select_range supabase_cloud table start (start + page_size - 1))
    as [[|row page]|e].
  - eexists _, _, _, _. split; [done|]. by read_events.
  - destruct (insert_rows refuses table (row :: page) target total)
      as [[target1 total1] inserts] eqn:Hins.
    apply insert_rows_run in Hins as (Hf1 & Hs1 & _).
    destruct (IH (start + page_size) total1 target1 Hex)
      as (target2 & total2 & evs & rest & Hrun & Hs & Hf).
    rewrite Hrun. eexists _, _, _, _. split; [done|]. read_events.
    rewrite Hs1, Hf1, Hs. split; [done|]. reflexivity.
  - eexists _, _, _, _. split; [done|]. by read_events.
Qed.

Lemma migrate_each_runs {Row} (supabase_cloud : Client Row) (refuses : refusal Row)
    (fuel total_tables : nat) (tables : list string) :
  (∀ t, t ∈ tables → exhausts fuel supabase_cloud t 0 = true) →
  ∀ i target,
    ∃ target' evs,
      migrate_each fuel supabase_cloud refuses total_tables i tables target
      = Some (target', evs)
      ∧ started evs = tables
      ∧ ∀ t, t ∈ tables → (t, 0, page_size - 1) ∈ fetches evs.
Proof.
  induction tables as [|table rest IH]; intros Hex i target.
  - eexists _, _. split; [done|]. split; [done|]. intros t Ht. by apply not_elem_of_nil in Ht.
  - cbn [migrate_each]. unfold migrate_table.
    destruct (migrate_loop_exhausts supabase_cloud refuses table fuel 0 0 target)
      as (target1 & total1 & evs1 & more & Hrun & Hs1 & Hf1).
    { apply Hex, list_elem_of_here. }
    rewrite Hrun.
    destruct (IH (fun t Ht => Hex t (list_elem_of_further _ _ _ Ht)) (S i) target1)
      as (target2 & evs2 & Hrest & Hs2 & Hf2).
    rewrite Hrest. eexists _, _. split; [done|]. read_events.
    rewrite Hs1, Hf1, Hs2. split; [done|].
    intros t Ht. apply elem_of_cons in Ht as [->|Ht].
    + apply list_elem_of_here.
    + apply elem_of_app. right. by apply Hf2.
Qed.

(** The listing of the tables sends no request and starts no copy. *)
Lemma listing_reads {Row} (cloud_tables : list string) :
  attempted (@listing Row cloud_tables) = []
  ∧ fetches (@listing Row cloud_tables) = []
  ∧ started (@listing Row cloud_tables) = [].
Proof.
  unfold listing.
  change (fun i table => @Print Row (ListedTable (S i) table))
    with (fun i table => @Print Row (ListedTable (1 + i) table)).
  generalize 1%nat. induction cloud_tables as [|t ts IH]; intros n; [done|].
  cbn [imap]. destruct (IH (S n)) as (Ha & Hf & Hs).
  assert (imap ((fun i t0 => @Print Row (ListedTable (n + i) t0)) ∘ S) ts
          = imap (fun i t0 => @Print Row (ListedTable (S n + i) t0)) ts) as ->.
  { apply imap_ext. intros j x _. cbn. do 2 f_equal. lia. }
  read_events. by rewrite Ha, Hf, Hs.
Qed.

(** The answers that pass the test: "y" or "Y", with blanks around. *)
Lemma confirmed_iff (answer : string) :
  confirmed answer = true ↔ strip answer = "y" ∨ strip answer = "Y".
Proof.
  unfold confirmed. rewrite bool_decide_eq_true. split.
  - destruct (strip answer) as [|c [|c' s]]; cbn; intros H; try discriminate H.
    injection H as H.
    destruct c as [[] [] [] [] [] [] [] []]; vm_compute in H; try discriminate H; auto.
  - intros [-> | ->]; reflexivity.
Qed.

(** The blanks of [strip] are the twelve code points of [str.isspace]. *)
Lemma is_space_codes (c : ascii) :
  is_space c
  = bool_decide (N_of_ascii c ∈ [ 9; 10; 11; 12; 13; 28; 29; 30; 31; 32; 133; 160 ]%N).
Proof. destruct c as [[] [] [] [] [] [] [] []]; vm_compute; reflexivity. Qed.

(** A no-break space or a next-line character around the answer is stripped
    as a blank is. *)
Example confirmed_latin_blanks :
  confirmed ("y" +:+ String "160" "") = true
  ∧ confirmed (String "133" "Y") = true
  ∧ show_menu [ "4" +:+ String "160" ""; "5" ] = (Returns "4", [ "5" ], 0%nat).
Proof. repeat split; vm_compute; reflexivity. Qed.

Example confirmed_examples :
  confirmed "y" = true ∧ confirmed "  Y " = true
  ∧ confirmed "" = false ∧ confirmed "n" = false ∧ confirmed "yes" = false.
Proof. repeat split; vm_compute; reflexivity. Qed.

(** C2.  When the answer typed at the prompt, stripped and lowered, is not
    "y", [migrate_all_tables] returns False, leaves the target as it was and
    sends no request, neither an insert nor a range request; this holds for
    every table list and needs no fuel.  In every run that issues an insert,
    the answer was "y". *)
Theorem migrate_all_tables_confirmation_gate {Row} (fuel : nat)
    (cloud_tables : list string) (supabase_cloud : Client Row)
    (refuses : refusal Row) (answer : string) (target : database Row) :
  (confirmed answer = false →
     ∃ evs,
       migrate_all_tables fuel cloud_tables supabase_cloud refuses answer target
       = Some (false, target, evs)
       ∧ attempted evs = [] ∧ fetches evs = [] ∧ started evs = [])
  ∧ (∀ result target' evs,
       migrate_all_tables fuel cloud_tables supabase_cloud refuses answer target
       = Some (result, target', evs) →
       attempted evs ≠ [] →
       confirmed answer = true).
Proof.
  assert (confirmed answer = false →
          ∃ evs,
            migrate_all_tables fuel cloud_tables supabase_cloud refuses answer target
            = Some (false, target, evs)
            ∧ attempted evs = [] ∧ fetches evs = [] ∧ started evs = []) as Hgate.
  { intros Hno. unfold migrate_all_tables. destruct cloud_tables as [|t ts].
    - eexists. split; [done|]. done.
    - rewrite Hno. cbn [negb]. eexists. split; [done|].
      destruct (@listing_reads Row (t :: ts)) as (Ha & Hf & Hs).
      read_events. rewrite Ha, Hf, Hs. done. }
  split; [exact Hgate|].
  intros result target' evs Hrun Hatt.
  destruct (confirmed answer) eqn:Hc; [done|].
  destruct (Hgate eq_refl) as (evs' & Hrun' & Ha & _).
  rewrite Hrun in Hrun'. by simplify_eq.
Qed.

(** The user declines: nothing reaches either store, whatever the fuel. *)
Example migrate_all_tables_declined :
  (fun run => (run.1, attempted run.2, fetches run.2))
    <$> migrate_all_tables 0 [ "orders"; "users" ]
          (table_store {[ "orders" := [ 1; 2 ]; "users" := [ 3 ] ]}) accepts_all "n" ∅
  = Some (false, ∅, [], []).
Proof. vm_compute. reflexivity. Qed.

(** C9.  For a table list that is not empty and a confirmed answer, as soon
    as the pages of every table run out within the fuel (a request raises or
    answers an empty page), [migrate_all_tables] returns True: the copy of
    every table of the list is started, in the order of the list, the first
    page of every table is requested, and the last line printed is the
    completion line.  A request that raises ends the copy of its table only. *)
Theorem migrate_all_tables_best_effort {Row} (fuel : nat)
    (cloud_tables : list string) (supabase_cloud : Client Row)
    (refuses : refusal Row) (answer : string) (target : database Row) :
  cloud_tables ≠ [] →
  confirmed answer = true →
  (∀ t, t ∈ cloud_tables → exhausts fuel supabase_cloud t 0 = true) →
  ∃ target' evs,
    migrate_all_tables fuel cloud_tables supabase_cloud refuses answer target
    = Some (true, target', evs)
    ∧ started evs = cloud_tables
    ∧ (∀ t, t ∈ cloud_tables → (t, 0, page_size - 1) ∈ fetches evs)
    ∧ last evs = Some (Print MigrationCompleted).
Proof.
  intros Hne Hyes Hex. unfold migrate_all_tables.
  destruct cloud_tables as [|t ts]; [done|]. rewrite Hyes. cbn [negb].
  destruct (migrate_each_runs supabase_cloud refuses fuel (length (t :: ts)) (t :: ts)
              Hex 1%nat target) as (target' & evs & Hrun & Hs & Hf).
  rewrite Hrun. eexists _, _. split; [done|].
  destruct (@listing_reads Row (t :: ts)) as (_ & Hlf & Hls).
  read_events. rewrite Hlf, Hls, Hs. cbn [app]. rewrite !app_nil_r.
  split; [done|]. split.
  - intros t' Ht'. by apply Hf.
  - rewrite app_assoc.
    exact (last_snoc _ (Print (FoundTables (length (t :: ts)))
                        :: (listing (t :: ts) ++ [Prompt]) ++ evs)).
Qed.

(** A source without the table a: its first request raises; b is copied. *)
Example migrate_all_tables_after_failure :
  (fun run => (run.1.1, run.1.2 !! "b", started run.2, fetches run.2, last run.2))
    <$> migrate_all_tables 3 [ "a"; "b" ]
          (table_store {[ "b" := [ 1; 2 ] ]}) accepts_all "y" ∅
  = Some (true, Some [ 1; 2 ], [ "a"; "b" ],
          [ ("a", 0, 999); ("b", 0, 999); ("b", 1000, 1999) ],
          Some (Print MigrationCompleted)).
Proof. vm_compute. reflexivity. Qed.

Lemma migrate_all_tables_best_effort_witness :
  ∃ target' evs,
    migrate_all_tables 3 [ "a"; "b" ] (table_store {[ "b" := [ 1; 2 ] ]}) accepts_all "y" ∅
    = Some (true, target', evs)
    ∧ started evs = [ "a"; "b" ]
    ∧ (∀ t, t ∈ [ "a"; "b" ] → (t, 0, page_size - 1) ∈ fetches evs)
    ∧ last evs = Some (Print MigrationCompleted).
Proof.
  apply (migrate_all_tables_best_effort 3 [ "a"; "b" ]
           (table_store {[ "b" := [ 1; 2 ] ]}) accepts_all "y" ∅).
  - discriminate.
  - vm_compute. reflexivity.
  - intros t Ht. apply elem_of_cons in Ht as [->|Ht]; [vm_compute; reflexivity|].
    apply elem_of_cons in Ht as [->|Ht]; [vm_compute; reflexivity|].
    by apply not_elem_of_nil in Ht.
Defined.

(** ** The counting loop *)

(** C3.  The counting loop leaves at the first empty page, whatever the
    number of empty pages seen before: the test on the page length that
    follows the counter of empty pages holds for an empty page, so the bound
    of three is never the reason the loop ends after one or two of them. *)
Theorem count_loop_stops_at_first_empty_page {Row} (fuel : nat)
    (supabase : Client Row) (table : string) (start total empty_batches : Z) :
  select_range supabase table start (start + batch_size - 1) = Returns [] →
  count_loop (S fuel) supabase table start total empty_batches
  = Some (Returns total, [Fetch table start (start + batch_size - 1)]).
Proof.
  intros Hempty. cbn [count_loop]. rewrite Hempty.
  destruct (bool_decide (max_empty_batches ≤ empty_batches + 1)); [done|].
  by rewrite decide_True.
Qed.

(** A source whose first page is empty and whose second page holds two
    rows: one request, and the total printed is zero. *)
Example count_table_gapped :
  count_table 5 (gapped_store 1000 [ 7; 8 ]) "orders"
  = Some (Returns 0, [ Fetch "orders" 0 999 ]).
Proof. vm_compute. reflexivity. Qed.

Lemma count_loop_stops_at_first_empty_page_witness :
  count_loop 5 (gapped_store 1000 [ 7; 8 ]) "orders" 0 0 0
  = Some (Returns 0, [ Fetch "orders" 0 (0 + batch_size - 1) ]).
Proof.
  apply (count_loop_stops_at_first_empty_page 4 (gapped_store 1000 [ 7; 8 ]) "orders" 0 0 0).
  vm_compute. reflexivity.
Defined.

(** On a table of 2500 rows the counting loop stops after the short page. *)
Example count_table_2500 :
  (fun run => (run.1, fetches run.2))
    <$> count_table 5 (table_store {[ "orders" := seqZ 0 2500 ]}) "orders"
  = Some (Returns 2500,
          [ ("orders", 0, 999); ("orders", 1000, 1999); ("orders", 2000, 2999) ]).
Proof. vm_compute. reflexivity. Qed.

(** * Further properties of the migration script *)

(** ** The copier on the target *)

Lemma insert_rows_appends {Row} (refuses : refusal Row) (table : string) (rows : list Row) :
  ∀ target total target' total' evs,
    insert_rows refuses table rows target total = (target', total', evs) →
    (∀ t, t ≠ table → target' !! t = target !! t)
    ∧ ∃ added,
        default [] (target' !! table) = default [] (target !! table) ++ added
        ∧ added `sublist_of` rows
        ∧ Z.of_nat (length added) = total' - total.
Proof.
  induction rows as [|row rest IH]; intros target total target' total' evs Hrun.
  - cbn in Hrun. simplify_eq. split; [done|]. exists []. rewrite app_nil_r.
    split; [done|]. split; [done|]. cbn. lia.
  - cbn [insert_rows] in Hrun. unfold insert_execute in Hrun.
    destruct (refuses target table row) as [e|] eqn:Href.
    + destruct (insert_rows refuses table rest target total) as [[t1 n1] evs1] eqn:Hrest.
      simplify_eq. apply IH in Hrest as (Hframe & added & Happ & Hsub & Hlen).
      split; [done|]. exists added. split; [done|]. split; [by apply sublist_cons|done].
    + destruct (insert_rows refuses table rest _ (total + 1)) as [[t1 n1] evs1] eqn:Hrest.
      simplify_eq. apply IH in Hrest as (Hframe & added & Happ & Hsub & Hlen).
      split.
      * intros t Ht. rewrite Hframe by done. by rewrite lookup_insert_ne.
      * exists (row :: added). rewrite Happ, lookup_insert_eq. cbn [from_option id].
        rewrite <- app_assoc. split; [done|]. split; [by apply sublist_skip|].
        cbn [length]. lia.
Qed.

Lemma insert_rows_all_accepted {Row} (refuses : refusal Row) (table : string) (rows : list Row) :
  (∀ db row, row ∈ rows → refuses db table row = None) →
  ∀ target total target' total' evs,
    insert_rows refuses table rows target total = (target', total', evs) →
    default [] (target' !! table) = default [] (target !! table) ++ rows
    ∧ total' = total + Z.of_nat (length rows)
    ∧ failures evs = [].
Proof.
  induction rows as [|row rest IH]; intros Hacc target total target' total' evs Hrun.
  - cbn in Hrun. simplify_eq. rewrite app_nil_r. cbn. repeat split; lia.
  - cbn [insert_rows] in Hrun. unfold insert_execute in Hrun.
    rewrite (Hacc target row) in Hrun by apply list_elem_of_here.
    destruct (insert_rows refuses table rest _ (total + 1)) as [[t1 n1] evs1] eqn:Hrest.
    simplify_eq. apply IH in Hrest as (Happ & Htot & Hfail).
    + rewrite Happ, lookup_insert_eq. cbn [from_option id]. rewrite <- app_assoc.
      split; [done|]. split; [cbn [length]; lia|]. read_events. exact Hfail.
    + intros db r Hr. apply Hacc. by apply list_elem_of_further.
Qed.

Lemma migrate_loop_appends {Row} (supabase_cloud : Client Row) (refuses : refusal Row)
    (table : string) (fuel : nat) :
  ∀ start total target target' total' evs,
    migrate_loop fuel supabase_cloud refuses table start total target
    = Some (target', total', evs) →
    (∀ t, t ≠ table → target' !! t = target !! t)
    ∧ ∃ added,
        default [] (target' !! table) = default [] (target !! table) ++ added
        ∧ added `sublist_of` (snd <$> attempted evs)
        ∧ Z.of_nat (length added) = total' - total.
Proof.
  induction fuel as [|fuel IH]; intros start total target target' total' evs Hrun;
    [discriminate Hrun|].
  rewrite migrate_loop_S in Hrun.
  destruct (select_range supabase_cloud table start (start + page_size - 1))
    as [[|row page]|e].
  - simplify_eq. split; [done|]. exists []. rewrite app_nil_r.
    split; [done|]. split; [apply sublist_nil_l|]. cbn. lia.
  - destruct (insert_rows refuses table (row :: page) target total)
      as [[target1 total1] inserts] eqn:Hins.
    destruct (migrate_loop fuel supabase_cloud refuses table (start + page_size)
                total1 target1) as [[[target2 total2] evs2]|] eqn:Hrest;
      [|discriminate Hrun].
    simplify_eq.
    pose proof (insert_rows_run _ _ _ _ _ _ _ _ Hins) as (_ & _ & Hatt & _).
    apply insert_rows_appends in Hins as (Hframe1 & added1 & Happ1 & Hsub1 & Hlen1).
    apply IH in Hrest as (Hframe2 & added2 & Happ2 & Hsub2 & Hlen2).
    split.
    + intros t Ht. rewrite Hframe2 by done. by apply Hframe1.
    + exists (added1 ++ added2). rewrite Happ2, Happ1, <- app_assoc.
      split; [done|]. split.
      * read_events. rewrite Hatt, fmap_app. apply sublist_app; [|done].
        rewrite <- list_fmap_compose.
        replace (snd ∘ (fun row0 : Row => (table, row0)) <$> row :: page)
          with (row :: page); [done|].
        clear. induction (row :: page) as [|x xs IHx]; [done|]. cbn. by rewrite <- IHx.
      * rewrite length_app. lia.
  - simplify_eq. split; [done|]. exists []. rewrite app_nil_r.
    split; [done|]. split; [apply sublist_nil_l|]. cbn. lia.
Qed.

(** X1.  Whatever the source answers and the target refuses, a run of
    [migrate_table] only appends to the table it copies: the other tables of
    the target are left as they were, the rows the table held before stay in
    front, and the rows added are, in order, some of the rows an insert was
    issued for; the total returned is their number. *)
Theorem migrate_table_appends_only {Row} (fuel : nat) (supabase_cloud : Client Row)
    (refuses : refusal Row) (table : string) (target target' : database Row)
    (result : outcome Z) (evs : list (event Row)) :
  migrate_table fuel supabase_cloud refuses table target = Some (target', result, evs) →
  (∀ t, t ≠ table → target' !! t = target !! t)
  ∧ ∃ added,
      default [] (target' !! table) = default [] (target !! table) ++ added
      ∧ added `sublist_of` (snd <$> attempted evs)
      ∧ result = Returns (Z.of_nat (length added)).
Proof.
  unfold migrate_table. intros Hrun.
  destruct (migrate_loop fuel supabase_cloud refuses table 0 0 target)
    as [[[target1 total1] evs1]|] eqn:Hloop; [|discriminate Hrun].
  simplify_eq.
  apply migrate_loop_appends in Hloop as (Hframe & added & Happ & Hsub & Hlen).
  split; [done|]. exists added. split; [done|]. split; [by read_events|].
  f_equal. lia.
Qed.

Lemma migrate_table_appends_only_witness :
  ({[ "t" := [ 1; 10; 12; 14 ]; "u" := [ 7 ] ]} : database Z) !! "u"
  = ({[ "t" := [ 1 ]; "u" := [ 7 ] ]} : database Z) !! "u".
Proof.
  refine (proj1 (migrate_table_appends_only 5
                   (table_store {[ "t" := [ 10; 11; 12; 13; 14 ] ]})
                   (refuses_rows [ 11; 13 ]) "t" {[ "t" := [ 1 ]; "u" := [ 7 ] ]}
                   {[ "t" := [ 1; 10; 12; 14 ]; "u" := [ 7 ] ]} (Returns 3) _ _) "u" _).
  - vm_compute. reflexivity.
  - discriminate.
Defined.

Lemma snd_tagged {Row} (table : string) (rows : list Row) :
  snd <$> ((fun row => (table, row)) <$> rows) = rows.
Proof. induction rows as [|x xs IH]; [done|]. cbn. by rewrite IH. Qed.

Lemma migrate_loop_all_accepted {Row} (supabase_cloud : Client Row) (refuses : refusal Row)
    (table : string) (fuel : nat) :
  (∀ db row, refuses db table row = None) →
  ∀ start total target target' total' evs,
    migrate_loop fuel supabase_cloud refuses table start total target
    = Some (target', total', evs) →
    default [] (target' !! table) = default [] (target !! table) ++ (snd <$> attempted evs)
    ∧ total' = total + Z.of_nat (length (attempted evs))
    ∧ failures evs = [].
Proof.
  intros Hacc. induction fuel as [|fuel IH];
    intros start total target target' total' evs Hrun; [discriminate Hrun|].
  rewrite migrate_loop_S in Hrun.
  destruct (select_range supabase_cloud table start (start + page_size - 1))
    as [[|row page]|e].
  - simplify_eq. rewrite app_nil_r. cbn. repeat split; lia.
  - destruct (insert_rows refuses table (row :: page) target total)
      as [[target1 total1] inserts] eqn:Hins.
    destruct (migrate_loop fuel supabase_cloud refuses table (start + page_size)
                total1 target1) as [[[target2 total2] evs2]|] eqn:Hrest;
      [|discriminate Hrun].
    simplify_eq.
    pose proof (insert_rows_run _ _ _ _ _ _ _ _ Hins) as (_ & _ & Hatt & _).
    apply insert_rows_all_accepted in Hins as (Happ1 & Htot1 & Hfail1); [|by intros].
    apply IH in Hrest as (Happ2 & Htot2 & Hfail2).
    read_events. rewrite Hatt, Hfail1, Hfail2, Happ2, Happ1.
    rewrite fmap_app, snd_tagged, length_app, length_fmap, <- app_assoc.
    split; [done|]. split; [lia|done].
  - simplify_eq. rewrite app_nil_r. cbn. repeat split; lia.
Qed.

Lemma migrate_table_accepted_run {Row} (others : gmap string (list Row))
    (refuses : refusal Row) (table : string) (rows : list Row)
    (target : database Row) (extra : nat) :
  (∀ db row, refuses db table row = None) →
  ∃ target' evs,
    migrate_table (S (length rows + extra)) (table_store (<[table := rows]> others))
      refuses table target
    = Some (target', Returns (Z.of_nat (length rows)), evs)
    ∧ default [] (target' !! table) = default [] (target !! table) ++ rows
    ∧ (∀ t, t ≠ table → target' !! t = target !! t)
    ∧ failures evs = []
    ∧ attempted evs = (fun row => (table, row)) <$> rows.
Proof.
  intros Hacc.
  destruct (migrate_loop_table_store (<[table := rows]> others) refuses table rows
              (lookup_insert_eq _ _ _) (S (length rows + extra)) 0 0 target)
    as (target' & total & evs & Hrun & _ & _ & Hatt & _).
  { rewrite drop_0. lia. }
  rewrite drop_0 in Hatt. change (Z.of_nat 0) with 0 in Hrun.
  pose proof (migrate_loop_appends _ _ _ _ _ _ _ _ _ _ Hrun) as (Hframe & _).
  pose proof (migrate_loop_all_accepted _ _ _ _ Hacc _ _ _ _ _ _ Hrun)
    as (Happ & Htot & Hfail).
  rewrite Hatt, snd_tagged in Happ. rewrite Hatt, length_fmap in Htot.
  exists target', (Print (MigratingTable table) :: evs).
  unfold migrate_table. rewrite Hrun.
  replace total with (Z.of_nat (length rows)) by lia.
  split; [done|]. split; [done|]. split; [done|]. by read_events.
Qed.

(** X2.  When the target refuses no row of the table, [migrate_table] on a
    source table of R rows returns R, prints no error line, and leaves in
    the target table the rows it held before followed by the R source rows
    in source order; the other tables of the target are unchanged. *)
Theorem migrate_table_copies_all {Row} (others : gmap string (list Row))
    (refuses : refusal Row) (table : string) (rows : list Row)
    (target : database Row) (extra : nat) :
  (∀ db row, refuses db table row = None) →
  ∃ target' evs,
    migrate_table (S (length rows + extra)) (table_store (<[table := rows]> others))
      refuses table target
    = Some (target', Returns (Z.of_nat (length rows)), evs)
    ∧ default [] (target' !! table) = default [] (target !! table) ++ rows
    ∧ (∀ t, t ≠ table → target' !! t = target !! t)
    ∧ failures evs = [].
Proof.
  intros Hacc.
  destruct (migrate_table_accepted_run others refuses table rows target extra Hacc)
    as (target' & evs & Hrun & Happ & Hframe & Hfail & _).
  exists target', evs. by repeat split.
Qed.

Lemma migrate_table_copies_all_witness :
  ∃ target' evs,
    migrate_table (S (length [ 10; 11 ] + 0))
      (table_store (<["t" := [ 10; 11 ]]> ∅)) accepts_all "t" {[ "t" := [ 1 ] ]}
    = Some (target', Returns (Z.of_nat (length [ 10; 11 ])), evs)
    ∧ default [] (target' !! "t") = default [] (({[ "t" := [ 1 ] ]} : database Z) !! "t") ++ [ 10; 11 ]
    ∧ (∀ t, t ≠ "t" → target' !! t = ({[ "t" := [ 1 ] ]} : database Z) !! t)
    ∧ failures evs = [].
Proof.
  apply (migrate_table_copies_all ∅ accepts_all "t" [ 10; 11 ] {[ "t" := [ 1 ] ]} 0).
  intros db row. reflexivity.
Defined.

(** X3.  The copy is not idempotent: when the target refuses no row, a
    second run of [migrate_table] on the same source table appends the same
    rows again, so the target table ends with two copies of them. *)
Theorem migrate_table_twice_duplicates {Row} (others : gmap string (list Row))
    (refuses : refusal Row) (table : string) (rows : list Row)
    (target : database Row) (extra : nat) :
  (∀ db row, refuses db table row = None) →
  ∃ target1 evs1 target2 evs2,
    migrate_table (S (length rows + extra)) (table_store (<[table := rows]> others))
      refuses table target
    = Some (target1, Returns (Z.of_nat (length rows)), evs1)
    ∧ migrate_table (S (length rows + extra)) (table_store (<[table := rows]> others))
        refuses table target1
      = Some (target2, Returns (Z.of_nat (length rows)), evs2)
    ∧ default [] (target2 !! table) = default [] (target !! table) ++ rows ++ rows.
Proof.
  intros Hacc.
  destruct (migrate_table_accepted_run others refuses table rows target extra Hacc)
    as (target1 & evs1 & Hrun1 & Happ1 & _).
  destruct (migrate_table_accepted_run others refuses table rows target1 extra Hacc)
    as (target2 & evs2 & Hrun2 & Happ2 & _).
  exists target1, evs1, target2, evs2. split; [done|]. split; [done|].
  by rewrite Happ2, Happ1, <- app_assoc.
Qed.

Lemma migrate_table_twice_duplicates_witness :
  ∃ target1 evs1 target2 evs2,
    migrate_table (S (length [ 10; 11 ] + 0))
      (table_store (<["t" := [ 10; 11 ]]> ∅)) accepts_all "t" ∅
    = Some (target1, Returns (Z.of_nat (length [ 10; 11 ])), evs1)
    ∧ migrate_table (S (length [ 10; 11 ] + 0))
        (table_store (<["t" := [ 10; 11 ]]> ∅)) accepts_all "t" target1
      = Some (target2, Returns (Z.of_nat (length [ 10; 11 ])), evs2)
    ∧ default [] (target2 !! "t")
      = default [] ((∅ : database Z) !! "t") ++ [ 10; 11 ] ++ [ 10; 11 ].
Proof.
  apply (migrate_table_twice_duplicates ∅ accepts_all "t" [ 10; 11 ] ∅ 0).
  intros db row. reflexivity.
Defined.

Lemma answered_rows_cons {Row} (supabase_cloud : Client Row) (table : string)
    (lo hi : Z) (requests : list (string * Z * Z)) :
  answered_rows supabase_cloud ((table, lo, hi) :: requests)
  = match select_range supabase_cloud table lo hi with
    | Returns rows => (fun row => (table, row)) <$> rows
    | Raises _ => []
    end ++ answered_rows supabase_cloud requests.
Proof. reflexivity. Qed.

Lemma migrate_loop_any_source {Row} (supabase_cloud : Client Row) (refuses : refusal Row)
    (table : string) (fuel : nat) :
  ∀ start total target target' total' evs,
    migrate_loop fuel supabase_cloud refuses table start total target
    = Some (target', total', evs) →
    fetches evs = page_ranges table start (length (fetches evs))
    ∧ (0 < length (fetches evs) ≤ fuel)%nat
    ∧ exhausts (length (fetches evs)) supabase_cloud table start = true
    ∧ exhausts (length (fetches evs) - 1) supabase_cloud table start = false
    ∧ attempted evs = answered_rows supabase_cloud (fetches evs)
    ∧ total' + Z.of_nat (length (failures evs)) = total + Z.of_nat (length (attempted evs)).
Proof.
  induction fuel as [|fuel IH]; intros start total target target' total' evs Hrun;
    [discriminate Hrun|].
  rewrite migrate_loop_S in Hrun.
  destruct (select_range supabase_cloud table start (start + page_size - 1))
    as [[|row page]|e] eqn:Hsel.
  - simplify_eq. read_events. cbn [length]. rewrite page_ranges_S, answered_rows_cons, Hsel.
    cbn [exhausts]. rewrite Hsel. cbn. repeat split; lia.
  - destruct (insert_rows refuses table (row :: page) target total)
      as [[target1 total1] inserts] eqn:Hins.
    destruct (migrate_loop fuel supabase_cloud refuses table (start + page_size)
                total1 target1) as [[[target2 total2] evs2]|] eqn:Hrest;
      [|discriminate Hrun].
    simplify_eq.
    apply insert_rows_run in Hins as (Hf1 & _ & Ha1 & Hc1 & _).
    apply IH in Hrest as (Hf2 & Hlen2 & Hex2 & Hnex2 & Ha2 & Hc2).
    read_events. rewrite Hf1, Ha1. cbn [app length].
    rewrite page_ranges_S, answered_rows_cons, Hsel, <- Hf2, <- Ha2.
    split; [done|]. split; [lia|]. split; [cbn [exhausts]; by rewrite Hsel|].
    split.
    { replace (S (length (fetches evs2)) - 1)%nat
        with (S (length (fetches evs2) - 1)) by lia.
      cbn [exhausts]. by rewrite Hsel. }
    split; [done|]. rewrite !length_app, length_fmap in *. lia.
  - simplify_eq. read_events. cbn [length]. rewrite page_ranges_S, answered_rows_cons, Hsel.
    cbn [exhausts]. rewrite Hsel. cbn. repeat split; lia.
Qed.

(** X4.  On any source, a run of [migrate_table] that returns has requested
    consecutive pages from position 0 on, at least one and at most the fuel;
    the number of requests is the first at which a request raises or is
    answered by an empty page.  One insert is issued for every row of every
    page the source answered, in order, also when a later request raises, and
    the returned total and the printed error lines add up to the inserts. *)
Theorem migrate_table_any_source {Row} (fuel : nat) (supabase_cloud : Client Row)
    (refuses : refusal Row) (table : string) (target target' : database Row)
    (result : outcome Z) (evs : list (event Row)) :
  migrate_table fuel supabase_cloud refuses table target = Some (target', result, evs) →
  fetches evs = page_ranges table 0 (length (fetches evs))
  ∧ (0 < length (fetches evs) ≤ fuel)%nat
  ∧ exhausts (length (fetches evs)) supabase_cloud table 0 = true
  ∧ exhausts (length (fetches evs) - 1) supabase_cloud table 0 = false
  ∧ attempted evs = answered_rows supabase_cloud (fetches evs)
  ∧ ∃ total, result = Returns total
      ∧ total + Z.of_nat (length (failures evs)) = Z.of_nat (length (attempted evs)).
Proof.
  unfold migrate_table. intros Hrun.
  destruct (migrate_loop fuel supabase_cloud refuses table 0 0 target)
    as [[[target1 total1] evs1]|] eqn:Hloop; [|discriminate Hrun].
  simplify_eq.
  apply migrate_loop_any_source in Hloop as (Hf & Hlen & Hex & Hnex & Ha & Hc).
  read_events. repeat (split; [done|]). exists total1. split; [done|]. lia.
Qed.

(** A source whose second page request raises: the first page is copied. *)
Example migrate_table_request_raises :
  (fun run => (run.1, fetches run.2, attempted run.2))
    <$> migrate_table 5 (failing_store 1000 [ 4; 5 ]) accepts_all "t" ∅
  = Some ({[ "t" := [ 4; 5 ] ]}, Returns 2,
          [ ("t", 0, 999); ("t", 1000, 1999) ], [ ("t", 4); ("t", 5) ]).
Proof. vm_compute. reflexivity. Qed.

Lemma migrate_table_any_source_witness :
  (0 < 2 ≤ 5)%nat.
Proof.
  refine (proj1 (proj2 (migrate_table_any_source 5 (failing_store 1000 [ 4; 5 ])
                          accepts_all "t" ∅ {[ "t" := [ 4; 5 ] ]} (Returns 2)
                          [ Print (MigratingTable "t"); Fetch "t" 0 999;
                            Insert "t" 4; Insert "t" 5; Print (CopiedRecords 2 2); Sleep;
                            Fetch "t" 1000 1999;
                            Print (ErrorDuringMigration "t" "request timed out") ] _))).
  vm_compute. reflexivity.
Defined.

(** ** The orchestrator on the target *)

Lemma migrate_loop_started {Row} (supabase_cloud : Client Row) (refuses : refusal Row)
    (table : string) (fuel : nat) :
  ∀ start total target target' total' evs,
    migrate_loop fuel supabase_cloud refuses table start total target
    = Some (target', total', evs) →
    started evs = [].
Proof.
  intros start total target target' total' evs Hrun.
  destruct (started evs) as [|t ts] eqn:Hs; [done|]. exfalso.
  revert start total target target' total' evs Hrun t ts Hs.
  induction fuel as [|fuel IH]; intros start total target target' total' evs Hrun t ts Hs;
    [discriminate Hrun|].
  rewrite migrate_loop_S in Hrun.
  destruct (select_range supabase_cloud table start (start + page_size - 1))
    as [[|row page]|e].
  - by simplify_eq.
  - destruct (insert_rows refuses table (row :: page) target total)
      as [[target1 total1] inserts] eqn:Hins.
    destruct (migrate_loop fuel supabase_cloud refuses table (start + page_size)
                total1 target1) as [[[target2 total2] evs2]|] eqn:Hrest;
      [|discriminate Hrun].
    simplify_eq. apply insert_rows_run in Hins as (_ & Hs1 & _).
    revert Hs. read_events. rewrite Hs1. cbn [app]. intros Hs.
    by eapply IH.
  - by simplify_eq.
Qed.

Lemma migrate_each_started {Row} (supabase_cloud : Client Row) (refuses : refusal Row)
    (fuel total_tables : nat) (tables : list string) :
  ∀ i target target' evs,
    migrate_each fuel supabase_cloud refuses total_tables i tables target
    = Some (target', evs) →
    started evs = tables.
Proof.
  induction tables as [|table rest IH]; intros i target target' evs Hrun.
  - cbn in Hrun. by simplify_eq.
  - cbn [migrate_each] in Hrun. unfold migrate_table in Hrun.
    destruct (migrate_loop fuel supabase_cloud refuses table 0 0 target)
      as [[[target1 total1] evs1]|] eqn:Hloop; [|discriminate Hrun].
    destruct (migrate_each fuel supabase_cloud refuses total_tables (S i) rest target1)
      as [[target2 evs2]|] eqn:Hrest; [|discriminate Hrun].
    simplify_eq. apply migrate_loop_started in Hloop. apply IH in Hrest.
    read_events. by rewrite Hloop, Hrest.
Qed.

(** X5.  The value returned by [migrate_all_tables] tells whether the copy
    was started, not whether it succeeded.  A run that returns gives True
    exactly when the table list is not empty and the typed answer, stripped
    of blanks, is "y" or "Y"; then the copy of every table of the list was
    started, in order, and the completion line is the last one printed,
    whatever failed in between.  When it gives False the target is as it
    was and no request was sent; for an empty list nothing is asked and one
    line is printed. *)
Theorem migrate_all_tables_result {Row} (fuel : nat) (cloud_tables : list string)
    (supabase_cloud : Client Row) (refuses : refusal Row) (answer : string)
    (target target' : database Row) (result : bool) (evs : list (event Row)) :
  migrate_all_tables fuel cloud_tables supabase_cloud refuses answer target
  = Some (result, target', evs) →
  (result = true ↔ cloud_tables ≠ [] ∧ (strip answer = "y" ∨ strip answer = "Y"))
  ∧ (result = true →
       started evs = cloud_tables ∧ last evs = Some (Print MigrationCompleted))
  ∧ (result = false →
       target' = target ∧ attempted evs = [] ∧ fetches evs = [] ∧ started evs = [])
  ∧ (cloud_tables = [] → evs = [Print NoTablesToMigrate]).
Proof.
  unfold migrate_all_tables. intros Hrun. rewrite <- confirmed_iff.
  destruct cloud_tables as [|t ts].
  - simplify_eq. split; [|split; [done|split; [done|done]]].
    split; [done|]. by intros [? _].
  - destruct (@listing_reads Row (t :: ts)) as (Hla & Hlf & Hls).
    destruct (confirmed answer) eqn:Hc; cbn [negb] in Hrun.
    + destruct (migrate_each fuel supabase_cloud refuses (length (t :: ts)) 1 (t :: ts) target)
        as [[target1 evs1]|] eqn:Heach; [|discriminate Hrun].
      simplify_eq. apply migrate_each_started in Heach.
      split; [done|]. split; [|split; [discriminate|discriminate]].
      intros _. read_events. rewrite Hls, Heach. cbn [app]. rewrite app_nil_r.
      split; [done|]. rewrite app_assoc.
      exact (last_snoc _ (Print (FoundTables (length (t :: ts)))
                          :: (listing (t :: ts) ++ [Prompt]) ++ evs1)).
    + simplify_eq. split; [|split; [discriminate|split; [|discriminate]]].
      * split; [discriminate|]. by intros [_ ?].
      * intros _. read_events. by rewrite Hla, Hlf, Hls.
Qed.

Lemma migrate_all_tables_result_witness :
  true = true ↔ [ "a"; "b" ] ≠ [] ∧ (strip "y" = "y" ∨ strip "y" = "Y").
Proof.
  refine (proj1 (migrate_all_tables_result 3 [ "a"; "b" ]
                   (table_store {[ "b" := [ 1; 2 ] ]}) accepts_all "y" ∅
                   {[ "b" := [ 1; 2 ] ]} true _ _)).
  vm_compute. reflexivity.
Defined.

Lemma migrate_table_from_store {Row} (source : gmap string (list Row))
    (refuses : refusal Row) (table : string) (target : database Row) (fuel : nat) :
  (length (default [] (source !! table)) < fuel)%nat →
  (∀ db row, refuses db table row = None) →
  ∃ target' evs,
    migrate_table fuel (table_store source) refuses table target
    = Some (target', Returns (Z.of_nat (length (default [] (source !! table)))), evs)
    ∧ default [] (target' !! table)
      = default [] (target !! table) ++ default [] (source !! table)
    ∧ (∀ t, t ≠ table → target' !! t = target !! t)
    ∧ started evs = [] ∧ failures evs = [].
Proof.
  intros Hfuel Hacc. destruct (source !! table) as [rows|] eqn:Hsrc; cbn in Hfuel |- *.
  - destruct (migrate_loop_table_store source refuses table rows Hsrc fuel 0 0 target)
      as (target' & total & evs & Hrun & _ & Hs & Hatt & _).
    { by rewrite drop_0. }
    rewrite drop_0 in Hatt. change (Z.of_nat 0) with 0 in Hrun.
    pose proof (migrate_loop_appends _ _ _ _ _ _ _ _ _ _ Hrun) as (Hframe & _).
    pose proof (migrate_loop_all_accepted _ _ _ _ Hacc _ _ _ _ _ _ Hrun)
      as (Happ & Htot & Hfail).
    rewrite Hatt, snd_tagged in Happ. rewrite Hatt, length_fmap in Htot.
    exists target', (Print (MigratingTable table) :: evs).
    unfold migrate_table. rewrite Hrun.
    replace total with (Z.of_nat (length rows)) by lia.
    split; [done|]. split; [done|]. split; [done|]. by read_events.
  - destruct fuel as [|fuel]; [lia|].
    unfold migrate_table. rewrite migrate_loop_S.
    unfold table_store at 1. cbn [select_range]. rewrite Hsrc.
    eexists _, _. split; [done|]. rewrite app_nil_r. by read_events.
Qed.

Lemma migrate_each_from_store {Row} (source : gmap string (list Row))
    (refuses : refusal Row) (fuel total_tables : nat) (tables : list string) :
  NoDup tables →
  (∀ t, t ∈ tables → (length (default [] (source !! t)) < fuel)%nat) →
  (∀ db t row, refuses db t row = None) →
  ∀ i target,
    ∃ target' evs,
      migrate_each fuel (table_store source) refuses total_tables i tables target
      = Some (target', evs)
      ∧ (∀ t, t ∈ tables →
           default [] (target' !! t) = default [] (target !! t) ++ default [] (source !! t))
      ∧ (∀ t, t ∉ tables → target' !! t = target !! t)
      ∧ failures evs = [].
Proof.
  intros Hnd Hfuel Hacc. induction tables as [|table rest IH]; intros i target.
  - eexists _, _. split; [done|]. split; [|done].
    intros t Ht. by apply not_elem_of_nil in Ht.
  - apply NoDup_cons in Hnd as [Hnotin Hnd].
    cbn [migrate_each].
    destruct (migrate_table_from_store source refuses table target fuel)
      as (target1 & evs1 & Hrun1 & Happ1 & Hframe1 & _ & Hfail1).
    { apply Hfuel, list_elem_of_here. }
    { intros db row. apply Hacc. }
    rewrite Hrun1.
    destruct (IH Hnd (fun t Ht => Hfuel t (list_elem_of_further _ _ _ Ht)) (S i) target1)
      as (target2 & evs2 & Hrun2 & Happ2 & Hframe2 & Hfail2).
    rewrite Hrun2. eexists _, _. split; [done|]. split; [|split].
    + intros t Ht. apply elem_of_cons in Ht as [->|Ht].
      * by rewrite (Hframe2 table Hnotin).
      * rewrite (Happ2 t Ht). rewrite Hframe1; [done|]. by intros ->.
    + intros t Ht. apply not_elem_of_cons in Ht as [Hne Ht].
      rewrite (Hframe2 t Ht). by apply Hframe1.
    + change (failures (Print (ProgressTable ?a ?b ?c) :: ?l)) with (failures l).
      rewrite failures_app, Hfail1.
      change (failures (Print (CompletedTable ?a ?b) :: ?l)) with (failures l).
      exact Hfail2.
Qed.

(** X6.  A confirmed run over a list of distinct tables, from a source of
    finite tables into a target that refuses nothing, with fuel above every
    table's row count, returns True and appends to every listed table of the
    target all rows of the source table, in source order; a listed table the
    source does not hold gains nothing, and the tables not listed are left
    as they were. *)
Theorem migrate_all_tables_copies_all {Row} (fuel : nat) (cloud_tables : list string)
    (source : gmap string (list Row)) (refuses : refusal Row) (answer : string)
    (target : database Row) :
  cloud_tables ≠ [] →
  confirmed answer = true →
  NoDup cloud_tables →
  (∀ t, t ∈ cloud_tables → (length (default [] (source !! t)) < fuel)%nat) →
  (∀ db t row, refuses db t row = None) →
  ∃ target' evs,
    migrate_all_tables fuel cloud_tables (table_store source) refuses answer target
    = Some (true, target', evs)
    ∧ (∀ t, t ∈ cloud_tables →
         default [] (target' !! t) = default [] (target !! t) ++ default [] (source !! t))
    ∧ (∀ t, t ∉ cloud_tables → target' !! t = target !! t).
Proof.
  intros Hne Hyes Hnd Hfuel Hacc. unfold migrate_all_tables.
  destruct cloud_tables as [|t ts]; [done|]. rewrite Hyes. cbn [negb].
  destruct (migrate_each_from_store source refuses fuel (length (t :: ts)) (t :: ts)
              Hnd Hfuel Hacc 1%nat target) as (target' & evs & Hrun & Happ & Hframe & _).
  rewrite Hrun. eexists _, _. split; [done|]. split; done.
Qed.

Lemma migrate_all_tables_copies_all_witness :
  ∃ target' evs,
    migrate_all_tables 3 [ "a"; "b" ] (table_store {[ "b" := [ 1; 2 ]; "c" := [ 3 ] ]})
      accepts_all " Y" {[ "b" := [ 9 ] ]}
    = Some (true, target', evs)
    ∧ (∀ t, t ∈ [ "a"; "b" ] →
         default [] (target' !! t)
         = default [] (({[ "b" := [ 9 ] ]} : database Z) !! t)
           ++ default [] (({[ "b" := [ 1; 2 ]; "c" := [ 3 ] ]} : gmap string (list Z)) !! t))
    ∧ (∀ t, t ∉ [ "a"; "b" ] → target' !! t = ({[ "b" := [ 9 ] ]} : database Z) !! t).
Proof.
  apply (migrate_all_tables_copies_all 3 [ "a"; "b" ]
           {[ "b" := [ 1; 2 ]; "c" := [ 3 ] ]} accepts_all " Y" {[ "b" := [ 9 ] ]}).
  - discriminate.
  - vm_compute. reflexivity.
  - apply NoDup_cons. split; [|apply NoDup_singleton].
    intros Hin. apply list_elem_of_singleton in Hin. discriminate Hin.
  - intros t Ht. apply elem_of_cons in Ht as [->|Ht]; [vm_compute; lia|].
    apply list_elem_of_singleton in Ht as ->. vm_compute. lia.
  - intros db t row. reflexivity.
Defined.

(** A table listed twice, as a catalog with a repeated row gives it, is
    copied twice. *)
Example migrate_all_tables_repeated_table :
  (fun run => run.1.2 !! "b")
    <$> migrate_all_tables 3 [ "b"; "b" ] (table_store {[ "b" := [ 1; 2 ] ]})
          accepts_all "y" ∅
  = Some (Some [ 1; 2; 1; 2 ]).
Proof. vm_compute. reflexivity. Qed.

(** ** Listing and comparing *)

(** X7.  [show_tables] prints one line per table, in the order of the list
    and numbered from 1; the rows column of a line reads "Error" exactly when
    [get_table_counts] gave a negative value for the table, and is the
    decimal text of the count otherwise. *)
Theorem show_tables_lines {Row} (tables : list string) (supabase : Client Row) :
  length (show_tables tables supabase) = length tables
  ∧ ∀ i t, tables !! i = Some t →
      ∃ text,
        show_tables tables supabase !! i = Some (S i, t, text)
        ∧ (text = "Error" ↔ get_table_counts supabase t < 0)
        ∧ (0 ≤ get_table_counts supabase t → text = pretty (get_table_counts supabase t)).
Proof.
  unfold show_tables. split; [apply length_imap|].
  intros i t Hi. exists (show_count (get_table_counts supabase t)).
  rewrite list_lookup_imap, Hi. split; [done|].
  unfold show_count. case_decide as Hn.
  - split; [|done]. split; [|lia].
    intros Herr. by apply pretty_nonneg_not_Error in Herr.
  - split; [|lia]. split; [lia|done].
Qed.

Lemma cell_eqb_sym (a b : cell) : cell_eqb a b = cell_eqb b a.
Proof.
  destruct a as [x|s], b as [y|t]; cbn; try done;
    apply bool_decide_ext; split; congruence.
Qed.

Lemma all_tables_comm (cloud_tables local_tables : list string) :
  all_tables cloud_tables local_tables = all_tables local_tables cloud_tables.
Proof.
  unfold all_tables. do 2 f_equal. apply set_eq. intros t.
  rewrite !elem_of_list_to_set, !elem_of_app. tauto.
Qed.

(** X8.  The comparison is symmetric: with the stores and the lists
    exchanged, [compare_tables] prints the same tables in the same order,
    with the two count columns exchanged, "Only in CLOUD" and "Only in LOCAL"
    exchanged, and "In sync" kept. *)
Theorem compare_tables_mirror {Row} (cloud_tables local_tables : list string)
    (supabase_cloud supabase_local : Client Row) :
  compare_tables local_tables cloud_tables supabase_local supabase_cloud
  = mirror <$> compare_tables cloud_tables local_tables supabase_cloud supabase_local.
Proof.
  unfold compare_tables. rewrite <- list_fmap_compose, all_tables_comm.
  apply list_fmap_ext. intros i t Ht.
  apply list_elem_of_lookup_2, all_tables_elem_of in Ht.
  unfold compare_one, mirror; cbn.
  repeat case_decide; try tauto; cbn [mirror_status]; try done.
  rewrite (cell_eqb_sym (CInt (get_table_counts supabase_local t))).
  by destruct (cell_eqb _ _).
Qed.

(** X9.  Compared with itself, a store is in sync on every table of the
    list, also on the tables whose count request raises. *)
Theorem compare_tables_self {Row} (tables : list string) (supabase : Client Row)
    (l : comparison) :
  l ∈ compare_tables tables tables supabase supabase →
  cmp_status l = InSync ∧ cmp_cloud l = cmp_local l ∧ cmp_table l ∈ tables.
Proof.
  unfold compare_tables. intros Hl.
  apply list_elem_of_fmap in Hl as (t & Heq & Ht). subst l.
  apply all_tables_elem_of in Ht. assert (t ∈ tables) as Hin by tauto.
  unfold compare_one; cbn.
  repeat case_decide; try tauto.
  cbn. by rewrite bool_decide_eq_true_2.
Qed.

Lemma compare_tables_self_witness :
  cmp_status {| cmp_table := "orders"; cmp_cloud := CInt (-1); cmp_local := CInt (-1);
                cmp_status := InSync |} = InSync.
Proof.
  refine (proj1 (compare_tables_self [ "orders" ] (table_store (∅ : gmap string (list Z)))
                   {| cmp_table := "orders"; cmp_cloud := CInt (-1); cmp_local := CInt (-1);
                      cmp_status := InSync |} _)).
  vm_compute. apply list_elem_of_here.
Defined.

(** ** Table discovery *)

Lemma prefix_before_dot (lit s n : string) :
  no_dot lit = true →
  String.prefix lit (s +:+ "." +:+ n) = String.prefix lit s.
Proof.
  revert lit. induction s as [|b s IH]; intros lit Hnd.
  - change ("" +:+ "." +:+ n) with (String "." n).
    destruct lit as [|a l]; [done|]. cbn in Hnd |- *.
    destruct (ascii_dec a ".") as [->|Hne]; [|done].
    by rewrite Ascii.eqb_refl in Hnd.
  - change (String b s +:+ "." +:+ n) with (String b (s +:+ "." +:+ n)).
    destruct lit as [|a l]; [done|]. cbn in Hnd |- *.
    destruct (ascii_dec a b) as [->|Hne]; [|done].
    apply IH. by apply andb_prop in Hnd as [_ ?].
Qed.

Lemma matches_any_schema (schema table_name : string) :
  matches_any EXCLUDE_PATTERNS (schema +:+ "." +:+ table_name)
  = matches_any EXCLUDE_PATTERNS schema.
Proof.
  unfold matches_any, EXCLUDE_PATTERNS. cbn [existsb re_search].
  by rewrite !prefix_before_dot.
Qed.

(** X10.  For a catalog row of a schema other than public, exclusion is
    decided by the schema name alone: the qualified name schema.table is in
    the list returned by [get_tables] exactly when no pattern of
    [EXCLUDE_PATTERNS] matches the schema name, whatever the table is
    called (a table pg_stat of schema app is listed, every table of schema
    auth is left out). *)
Theorem get_tables_other_schema response names (it : item) (schema table_name : string) :
  get_tables response = Returns names →
  it ∈ catalog response →
  it !! "table_schema" = Some schema →
  schema ≠ "public" →
  it !! "table_name" = Some table_name →
  (schema +:+ "." +:+ table_name ∈ names ↔ matches_any EXCLUDE_PATTERNS schema = false).
Proof.
  intros Hret Hit Hs Hne Hn. apply get_tables_returns in Hret. subst names.
  rewrite sorted_elem_of. unfold kept_names.
  rewrite list_elem_of_filter, matches_any_schema.
  split; [by intros [? _]|]. intros Hno. split; [done|].
  apply list_elem_of_omap. exists it. split; [done|].
  unfold full_name_of. rewrite Hs, Hn. rewrite decide_False by congruence. done.
Qed.

Lemma get_tables_other_schema_witness :
  "app" +:+ "." +:+ "pg_stat" ∈ [ "app.pg_stat" ]
  ↔ matches_any EXCLUDE_PATTERNS "app" = false.
Proof.
  apply (get_tables_other_schema
           (Returns (Some [ schema_item "auth" "users"; schema_item "app" "pg_stat" ]))
           [ "app.pg_stat" ] (schema_item "app" "pg_stat") "app" "pg_stat").
  - vm_compute. reflexivity.
  - apply list_elem_of_further, list_elem_of_here.
  - vm_compute. reflexivity.
  - discriminate.
  - vm_compute. reflexivity.
Defined.

Lemma collect_tables_raises (data : list item) :
  (∃ e, collect_tables data = Raises e) ↔ ∃ it, it ∈ data ∧ full_name_of it = None.
Proof.
  induction data as [|it rest IH]; cbn [collect_tables].
  - split; [by intros [e ?]|]. intros (it & Hin & _). by apply not_elem_of_nil in Hin.
  - destruct (full_name_of it) as [full_name|] eqn:Hname.
    + assert ((∃ e, (if matches_any EXCLUDE_PATTERNS full_name then collect_tables rest
                     else match collect_tables rest with
                          | Returns tables => Returns (full_name :: tables)
                          | Raises e => Raises e
                          end) = Raises e)
              ↔ ∃ e, collect_tables rest = Raises e) as ->.
      { destruct (matches_any EXCLUDE_PATTERNS full_name); [done|].
        destruct (collect_tables rest) as [ts|e']; split; intros [e He];
          try discriminate He; by exists e'. }
      rewrite IH. split.
      * intros (it' & Hin & Hnone). exists it'. split; [by apply list_elem_of_further|done].
      * intros (it' & Hin & Hnone). apply elem_of_cons in Hin as [->|Hin]; [congruence|].
        by exists it'.
    + split; [|by eexists]. intros _. exists it. split; [apply list_elem_of_here|done].
Qed.

(** X11.  [get_tables] raises exactly when the catalog call raises or the
    catalog holds a row of the public schema without a table name (the
    pattern search fails on a name that is not a string); one such row makes
    the whole discovery fail.  A row of another schema without a name does
    not: its qualified name reads schema.None. *)
Theorem get_tables_raises_iff (response : outcome (option (list item))) :
  ((∃ e, get_tables response = Raises e)
   ↔ (∃ e, response = Raises e)
     ∨ ∃ it, it ∈ catalog response
             ∧ it !! "table_schema" = Some "public" ∧ it !! "table_name" = None)
  ∧ ∀ it schema, it !! "table_schema" = Some schema → schema ≠ "public" →
      it !! "table_name" = None →
      full_name_of it = Some (schema +:+ "." +:+ "None").
Proof.
  split.
  - assert (∀ it : item, full_name_of it = None
              ↔ it !! "table_schema" = Some "public" ∧ it !! "table_name" = None) as Hnone.
    { intros it. unfold full_name_of. case_decide as Hs; [|split; [done|tauto]].
      split; [done|]. by intros [_ ?]. }
    destruct response as [[[|it rest]|]|e]; cbn [get_tables catalog].
    + split; [by intros [e ?]|]. intros [[e ?]|(it & Hin & _)]; [done|].
      by apply not_elem_of_nil in Hin.
    + pose proof (collect_tables_raises (it :: rest)) as Hcol.
      destruct (collect_tables (it :: rest)) as [ts|e].
      * split; [by intros [e ?]|]. intros [[e ?]|(it' & Hin & Hpub)]; [done|].
        destruct (proj2 Hcol) as [e He]; [|done].
        exists it'. split; [done|]. by apply Hnone.
      * split; [|by eexists]. intros _. right.
        destruct (proj1 Hcol) as (it' & Hin & Hnm); [by eexists|].
        exists it'. split; [done|]. by apply Hnone.
    + split; [by intros [e ?]|]. intros [[e ?]|(it & Hin & _)]; [done|].
      by apply not_elem_of_nil in Hin.
    + split; [|by eexists]. intros _. left. by eexists.
  - intros it schema Hs Hne Hn. unfold full_name_of. rewrite Hs, Hn.
    rewrite decide_False by congruence. done.
Qed.

(** ** The menu *)

Lemma show_menu_returns (typed rest : list string) (choice : string) (warnings : nat) :
  show_menu typed = (Returns choice, rest, warnings) →
  ∃ skipped typed_line,
    typed = skipped ++ typed_line :: rest
    ∧ strip typed_line = choice
    ∧ choice ∈ [ "1"; "2"; "3"; "4"; "5" ]
    ∧ length skipped = warnings
    ∧ Forall (fun l => strip l ∉ [ "1"; "2"; "3"; "4"; "5" ]) skipped.
Proof.
  revert warnings. induction typed as [|l typed IH]; intros warnings Hrun.
  - discriminate Hrun.
  - cbn [show_menu] in Hrun. case_decide as Hv.
    + simplify_eq. exists [], l. by repeat split.
    + destruct (show_menu typed) as [[result rest'] w] eqn:Hrest. simplify_eq.
      destruct (IH w eq_refl) as (skipped & l' & -> & Hs & Hin & Hlen & Hall).
      exists (l :: skipped), l'. cbn [length].
      split; [done|]. split; [done|]. split; [done|]. split; [by rewrite Hlen|].
      by constructor.
Qed.

Lemma show_menu_raises (typed rest : list string) (e : string) (warnings : nat) :
  show_menu typed = (Raises e, rest, warnings) →
  rest = [] ∧ warnings = length typed
  ∧ Forall (fun l => strip l ∉ [ "1"; "2"; "3"; "4"; "5" ]) typed.
Proof.
  revert warnings. induction typed as [|l typed IH]; intros warnings Hrun.
  - cbn in Hrun. by simplify_eq.
  - cbn [show_menu] in Hrun. case_decide as Hv; [discriminate Hrun|].
    destruct (show_menu typed) as [[result rest'] w] eqn:Hrest. simplify_eq.
    destruct (IH w eq_refl) as (-> & -> & Hall).
    split; [done|]. split; [done|]. by constructor.
Qed.

(** X12.  [show_menu] returns the first typed line that, stripped of blanks,
    is one of "1" to "5", in its stripped form; it prints one warning for
    each line typed before it, none of which is a valid choice, and leaves
    the lines typed after it for the next prompt.  It raises only when no
    typed line is a valid choice, after one warning per line. *)
Theorem show_menu_first_valid (typed : list string) :
  match show_menu typed with
  | (Returns choice, rest, warnings) =>
      choice ∈ [ "1"; "2"; "3"; "4"; "5" ]
      ∧ ∃ skipped typed_line,
          typed = skipped ++ typed_line :: rest
          ∧ strip typed_line = choice
          ∧ length skipped = warnings
          ∧ Forall (fun l => strip l ∉ [ "1"; "2"; "3"; "4"; "5" ]) skipped
  | (Raises e, rest, warnings) =>
      rest = [] ∧ warnings = length typed
      ∧ Forall (fun l => strip l ∉ [ "1"; "2"; "3"; "4"; "5" ]) typed
  end.
Proof.
  destruct (show_menu typed) as [[[choice|e] rest] warnings] eqn:Hrun.
  - apply show_menu_returns in Hrun as (skipped & l & Ht & Hs & Hin & Hlen & Hall).
    split; [done|]. by exists skipped, l.
  - by apply show_menu_raises in Hrun.
Qed.

Example show_menu_examples :
  show_menu [ "x"; " 4 "; "5" ] = (Returns "4", [ "5" ], 1%nat)
  ∧ show_menu [ "6"; "" ] = (Raises "EOF when reading a line", [], 2%nat)
  ∧ Toolkit.show_menu [ " 4 "; "6" ] = (Returns "6", [], 1%nat).
Proof. repeat split; vm_compute; reflexivity. Qed.

(** ** The toolkit *)

(** X13.  [list_tables] never raises.  It returns a list exactly when the
    remote procedure answered a list of rows: the table names of the rows
    that have one, in ascending order, the rows without the key being left
    out (an empty answer gives the empty list).  Otherwise it returns None
    and prints one line, the installation hint when the message tells that
    the procedure is missing. *)
Theorem toolkit_list_tables_result (response : outcome (option (list item))) :
  match Toolkit.list_tables response with
  | (Some names, printed) =>
      ∃ data, response = Returns (Some data)
              ∧ StronglySorted String.le names
              ∧ names ≡ₚ omap (fun row : item => row !! "table_name") data
              ∧ printed = []
  | (None, printed) =>
      (response = Returns None ∧ printed = [Toolkit.UnexpectedFormat])
      ∨ ∃ error_msg, response = Raises error_msg
          ∧ (Toolkit.function_missing error_msg = true ∧ printed = [Toolkit.InstallHint]
             ∨ Toolkit.function_missing error_msg = false
               ∧ printed = [Toolkit.ErrorListing error_msg])
  end.
Proof.
  destruct response as [[data|]|error_msg]; cbn [Toolkit.list_tables].
  - exists data. split; [done|]. split; [apply (StronglySorted_merge_sort String.le)|].
    split; [apply merge_sort_Permutation|done].
  - by left.
  - right. exists error_msg. split; [done|].
    destruct (Toolkit.function_missing error_msg); [by left|by right].
Qed.

Example toolkit_list_tables_examples :
  Toolkit.list_tables (Returns (Some [ {[ "table_name" := "users" ]}; {[ "name" := "x" ]};
                                       {[ "table_name" := "orders" ]} ]))
  = (Some [ "orders"; "users" ], [])
  ∧ Toolkit.list_tables (Returns (Some [])) = (Some [], [])
  ∧ Toolkit.list_tables
      (Raises "ERROR: function public.list_tables() does not exist (42883)")
    = (None, [Toolkit.InstallHint]).
Proof. repeat split; vm_compute; reflexivity. Qed.

Lemma full_batches_small (n : nat) :
  (Z.of_nat n < batch_size) → full_batches n = 0%nat.
Proof.
  intros Hn. unfold full_batches. rewrite Z.div_small; [done|]. lia.
Qed.

Lemma full_batches_step (n : nat) :
  (batch_size ≤ Z.of_nat n) →
  full_batches n = S (full_batches (n - Z.to_nat batch_size)).
Proof.
  unfold full_batches, batch_size. intros Hn.
  replace (Z.of_nat (n - Z.to_nat 1000)) with (Z.of_nat n - 1 * 1000) by lia.
  assert (Z.of_nat n / 1000 = (Z.of_nat n - 1 * 1000) / 1000 + 1) as ->.
  { rewrite <- Z.div_add by lia. f_equal. lia. }
  rewrite Z2Nat.inj_add; [|apply Z.div_pos; lia|lia].
  change (Z.to_nat 1) with 1%nat. lia.
Qed.

Lemma count_loop_S {Row} fuel (supabase : Client Row) table start total empty_batches :
  count_loop (S fuel) supabase table start total empty_batches
  = match select_range supabase table start (start + batch_size - 1) with
    | Raises e => Some (Raises e, [Fetch table start (start + batch_size - 1)])
    | Returns rows =>
        let '(total', empty_batches', stop) :=
          match rows with
          | [] => (total, empty_batches + 1,
                   bool_decide (max_empty_batches ≤ empty_batches + 1))
          | _ => (total + Z.of_nat (length rows), 0, false)
          end in
        if stop then Some (Returns total', [Fetch table start (start + batch_size - 1)])
        else if decide (Z.of_nat (length rows) < batch_size) then
          Some (Returns total', [Fetch table start (start + batch_size - 1)])
        else
          match count_loop fuel supabase table (start + batch_size) total' empty_batches' with
          | None => None
          | Some (result, evs) =>
              Some (result, Fetch table start (start + batch_size - 1) :: evs)
          end
    end.
Proof. reflexivity. Qed.

Lemma count_loop_table_store {Row} (tables : gmap string (list Row))
    (table : string) (rows : list Row) :
  tables !! table = Some rows →
  ∀ fuel k total empty_batches,
    (length (drop k rows) < fuel)%nat →
    ∃ evs,
      count_loop fuel (table_store tables) table (Z.of_nat k) total empty_batches
      = Some (Returns (total + Z.of_nat (length (drop k rows))), evs)
      ∧ fetches evs
        = page_ranges table (Z.of_nat k) (S (full_batches (length (drop k rows))))
      ∧ attempted evs = [].
Proof.
  intros Htab fuel. induction fuel as [|fuel IH];
    intros k total empty_batches Hfuel; [lia|].
  rewrite count_loop_S. unfold table_store at 1. cbn [select_range].
  change batch_size with page_size. rewrite Htab, slice_page.
  pose proof page_size_pos as HP.
  destruct (take (Z.to_nat page_size) (drop k rows)) as [|row page] eqn:Hpage.
  - assert (drop k rows = []) as Hrem.
    { destruct (drop k rows) as [|r rem]; [done|].
      destruct (Z.to_nat page_size) as [|n] eqn:Hn; [lia|]. discriminate Hpage. }
    rewrite Hrem. cbn [length]. rewrite Z.add_0_r.
    assert (full_batches 0 = 0%nat) as -> by reflexivity.
    rewrite page_ranges_S.
    destruct (bool_decide (max_empty_batches ≤ empty_batches + 1));
      [|rewrite decide_True by (cbn; lia)];
      (eexists; split; [done|]; by read_events).
  - assert (length (row :: page) = Nat.min (Z.to_nat page_size) (length (drop k rows)))
      as Hlen by (rewrite <- Hpage; apply length_take).
    case_decide as Hshort.
    + assert (length (drop k rows) = length (row :: page)) as Hall by lia.
      eexists. split; [by rewrite Hall|].
      rewrite full_batches_small by (change batch_size with page_size; lia).
      rewrite page_ranges_S. by read_events.
    + assert (drop (k + Z.to_nat page_size) rows
              = drop (Z.to_nat page_size) (drop k rows)) as Hdrop by (by rewrite drop_drop).
      destruct (IH (k + Z.to_nat page_size)%nat (total + Z.of_nat (length (row :: page))) 0)
        as (evs & Hrun & Hf & Ha).
      { rewrite Hdrop, length_drop. lia. }
      replace (Z.of_nat (k + Z.to_nat page_size)) with (Z.of_nat k + page_size)
        in Hrun, Hf by lia.
      rewrite Hrun. eexists. split.
      { do 3 f_equal. rewrite Hdrop, length_drop. lia. }
      rewrite Hdrop, length_drop in Hf. read_events. rewrite Hf, Ha.
      rewrite (full_batches_step (length (drop k rows)))
        by (change batch_size with page_size; lia).
      change batch_size with page_size.
      by rewrite (page_ranges_S table (Z.of_nat k)).
Qed.

(** X14.  On a table of R rows the counting loop returns R, the number of
    rows, after R / 1000 (rounded down) + 1 range requests of consecutive
    pages from position 0: it stops at the first page that is not full. *)
Theorem count_table_counts_rows {Row} (others : gmap string (list Row))
    (table : string) (rows : list Row) (extra : nat) :
  ∃ evs,
    count_table (S (length rows + extra)) (table_store (<[table := rows]> others)) table
    = Some (Returns (Z.of_nat (length rows)), evs)
    ∧ fetches evs = page_ranges table 0 (S (full_batches (length rows)))
    ∧ length (fetches evs) = S (full_batches (length rows)).
Proof.
  destruct (count_loop_table_store (<[table := rows]> others) table rows
              (lookup_insert_eq _ _ _) (S (length rows + extra)) 0 0 0)
    as (evs & Hrun & Hf & _).
  { rewrite drop_0. lia. }
  rewrite drop_0 in Hrun, Hf. change (Z.of_nat 0) with 0 in Hrun, Hf.
  rewrite Z.add_0_l in Hrun. exists evs. split; [exact Hrun|]. split; [done|].
  by rewrite Hf, length_page_ranges.
Qed.

Lemma toolkit_list_tables_some (response : outcome (option (list item)))
    (names : list string) :
  (Toolkit.list_tables response).1 = Some names →
  (Toolkit.list_tables response).2 = [].
Proof. by destruct response as [[data|]|error_msg]. Qed.

Lemma count_table_from_store {Row} (source : gmap string (list Row)) (table : string)
    (fuel : nat) :
  (length (default [] (source !! table)) < fuel)%nat →
  ∃ evs,
    count_table fuel (table_store source) table
    = Some (match source !! table with
            | Some rows => Returns (Z.of_nat (length rows))
            | None => Raises "relation does not exist"
            end, evs)
    ∧ attempted evs = [].
Proof.
  intros Hfuel. unfold count_table.
  destruct (source !! table) as [rows|] eqn:Hsrc; cbn in Hfuel.
  - destruct (count_loop_table_store source table rows Hsrc fuel 0 0 0)
      as (evs & Hrun & _ & Ha).
    { by rewrite drop_0. }
    rewrite drop_0 in Hrun. change (Z.of_nat 0) with 0 in Hrun.
    rewrite Z.add_0_l in Hrun. by exists evs.
  - destruct fuel as [|fuel]; [lia|]. rewrite count_loop_S.
    unfold table_store at 1. cbn [select_range]. rewrite Hsrc.
    eexists. split; [done|]. by read_events.
Qed.

Lemma count_tables_from_store {Row} (source : gmap string (list Row)) (fuel : nat)
    (tables : list string) :
  (∀ t, t ∈ tables → (length (default [] (source !! t)) < fuel)%nat) →
  ∃ evs,
    Toolkit.count_tables fuel (table_store source) tables
    = Some (count_line_of source <$> tables, evs)
    ∧ attempted evs = [].
Proof.
  induction tables as [|table rest IH]; intros Hfuel.
  - by exists [].
  - cbn [Toolkit.count_tables].
    destruct (count_table_from_store source table fuel) as (evs1 & Hrun1 & Ha1).
    { apply Hfuel, list_elem_of_here. }
    rewrite Hrun1.
    destruct IH as (evs2 & Hrun2 & Ha2).
    { intros t Ht. by apply Hfuel, list_elem_of_further. }
    rewrite Hrun2. eexists. split.
    + cbn [fmap list_fmap]. unfold count_line_of at 2. by destruct (source !! table).
    + by rewrite attempted_app, Ha1, Ha2.
Qed.

(** X15.  On a store of finite tables, [list_tables_with_counts] returns the
    list of [list_tables] and prints one line per table, in that order: the
    exact number of rows of the table, or an error line for a table the store
    does not hold, which does not stop the tables after it.  It sends no
    insert. *)
Theorem toolkit_list_tables_with_counts_store {Row} (fuel : nat)
    (source : gmap string (list Row)) (response : outcome (option (list item)))
    (names : list string) :
  (Toolkit.list_tables response).1 = Some names →
  names ≠ [] →
  (∀ t, t ∈ names → (length (default [] (source !! t)) < fuel)%nat) →
  ∃ evs,
    Toolkit.list_tables_with_counts fuel (table_store source) response
    = Some (names, count_line_of source <$> names, evs)
    ∧ attempted evs = [].
Proof.
  intros Hnames Hne Hfuel. unfold Toolkit.list_tables_with_counts.
  pose proof (toolkit_list_tables_some response names Hnames) as Hres.
  destruct (Toolkit.list_tables response) as [tables printed].
  cbn in Hnames, Hres. subst tables printed.
  destruct names as [|t ts]; [done|].
  destruct (count_tables_from_store source fuel (t :: ts) Hfuel) as (evs & Hrun & Ha).
  rewrite Hrun. by exists evs.
Qed.

Lemma toolkit_list_tables_with_counts_store_witness :
  ∃ evs,
    Toolkit.list_tables_with_counts 4 (table_store {[ "users" := [ 1; 2; 3 ] ]})
      (Returns (Some [ {[ "table_name" := "users" ]}; {[ "table_name" := "gone" ]} ]))
    = Some ([ "gone"; "users" ],
            count_line_of {[ "users" := [ 1; 2; 3 ] ]} <$> [ "gone"; "users" ], evs)
    ∧ attempted evs = [].
Proof.
  apply (toolkit_list_tables_with_counts_store 4 {[ "users" := [ 1; 2; 3 ] ]}
           (Returns (Some [ {[ "table_name" := "users" ]}; {[ "table_name" := "gone" ]} ]))
           [ "gone"; "users" ]).
  - vm_compute. reflexivity.
  - discriminate.
  - intros t Ht. apply elem_of_cons in Ht as [->|Ht]; [vm_compute; lia|].
    apply list_elem_of_singleton in Ht as ->. vm_compute. lia.
Defined.

Lemma lower_is_y (s : string) : lower s = "y" ↔ s = "y" ∨ s = "Y".
Proof.
  split.
  - destruct s as [|c [|c' s]]; cbn; intros H; try discriminate H.
    injection H as H.
    destruct c as [[] [] [] [] [] [] [] []]; vm_compute in H; try discriminate H; auto.
  - intros [-> | ->]; reflexivity.
Qed.

(** X16.  [drop_tables] calls a remote procedure only when the line typed
    at the warning is exactly "y" or "Y": any other line, also one that
    differs by a blank, cancels with no call at all, not even the listing.
    Every line that confirms a drop would also confirm a migration. *)
Theorem toolkit_drop_tables_gate {Row} (confirm : string)
    (response : outcome (option (list item))) (drop : string → option string) :
  ((@Toolkit.drop_tables Row confirm response drop).2 = []
   ↔ confirm ≠ "y" ∧ confirm ≠ "Y")
  ∧ (confirm ≠ "y" ∧ confirm ≠ "Y" →
       @Toolkit.drop_tables Row confirm response drop = ([Toolkit.OperationCancelled], []))
  ∧ (confirm = "y" ∨ confirm = "Y" → confirmed confirm = true).
Proof.
  pose proof (lower_is_y confirm) as Hy. unfold Toolkit.drop_tables.
  split; [|split].
  - case_decide as Hc.
    + split; [|done]. intros _. split; intros ->; apply Hc; reflexivity.
    + destruct (Toolkit.list_tables response) as [[[|t ts]|] printed]; cbn;
        (split; [discriminate|]); intros [H1 H2]; apply Hy in Hc as [?|?]; done.
  - intros [H1 H2]. rewrite decide_True; [done|].
    intros Hl. apply Hy in Hl as [?|?]; done.
  - intros [-> | ->]; reflexivity.
Qed.

(** The migration prompt takes a line with blanks around it; the drop
    warning does not. *)
Example toolkit_drop_tables_blank :
  confirmed " y" = true
  ∧ @Toolkit.drop_tables Z " y" (Returns (Some [ {[ "table_name" := "users" ]} ]))
      (fun _ => None)
    = ([Toolkit.OperationCancelled], []).
Proof. split; vm_compute; reflexivity. Qed.

(** Once confirmed, every listed table is asked to be dropped, also after a
    drop that raised. *)
Example toolkit_drop_tables_after_error :
  @Toolkit.drop_tables Z "Y"
    (Returns (Some [ {[ "table_name" := "users" ]}; {[ "table_name" := "orders" ]} ]))
    (fun t => if decide (t = "orders") then Some "permission denied" else None)
  = ([ Toolkit.Dropping 2; Toolkit.DropError "orders" "permission denied";
       Toolkit.Dropped "users" ],
     [ Toolkit.ListTables; Toolkit.DropTable "orders"; Toolkit.DropTable "users" ]).
Proof. vm_compute. reflexivity. Qed.

Lemma copy_tables_cons {Row} (select_all : string → outcome (list Row))
    (refuses : Toolkit.bulk_refusal Row) (table : string) (rest : list string)
    (target target' : database Row) (lines : list Toolkit.line)
    (calls : list (Toolkit.call Row)) :
  Toolkit.copy_tables select_all refuses (table :: rest) target = (target', lines, calls) →
  ∃ target1 lines1 calls1 asked,
    Toolkit.copy_tables select_all refuses rest target1 = (target', lines1, calls1)
    ∧ Toolkit.inserted_into calls = asked ++ Toolkit.inserted_into calls1
    ∧ (asked = [] ∨ asked = [table] ∧ ∃ rows, select_all table = Returns rows ∧ rows ≠ [])
    ∧ (target1 = target
       ∧ (select_all table = Returns []
          ∨ (∃ e, select_all table = Raises e)
          ∨ ∃ rows e, select_all table = Returns rows ∧ refuses target table rows = Some e)
       ∨ ∃ rows, select_all table = Returns rows ∧ rows ≠ []
                 ∧ refuses target table rows = None
                 ∧ target1 = <[table := default [] (target !! table) ++ rows]> target).
Proof.
  cbn [Toolkit.copy_tables]. intros Hrun.
  destruct (select_all table) as [[|row rows]|e] eqn:Hsel.
  - destruct (Toolkit.copy_tables select_all refuses rest target)
      as [[target1 lines1] calls1] eqn:Hrest.
    simplify_eq. exists target, lines1, calls1, [].
    split; [done|]. split; [done|]. split; [by left|]. left. split; [done|by left].
  - destruct (refuses target table (row :: rows)) as [e|] eqn:Href.
    + destruct (Toolkit.copy_tables select_all refuses rest target)
        as [[target1 lines1] calls1] eqn:Hrest.
      simplify_eq. exists target, lines1, calls1, [table].
      split; [done|]. split; [done|]. split.
      * right. split; [done|]. by exists (row :: rows).
      * left. split; [done|]. right. right. by exists (row :: rows), e.
    + destruct (Toolkit.copy_tables select_all refuses rest _)
        as [[target1 lines1] calls1] eqn:Hrest.
      simplify_eq. eexists _, lines1, calls1, [table].
      split; [exact Hrest|]. split; [done|]. split.
      * right. split; [done|]. by exists (row :: rows).
      * right. by exists (row :: rows).
  - destruct (Toolkit.copy_tables select_all refuses rest target)
      as [[target1 lines1] calls1] eqn:Hrest.
    simplify_eq. exists target, lines1, calls1, [].
    split; [done|]. split; [done|]. split; [by left|].
    left. split; [done|]. right. left. by exists e.
Qed.

Lemma copy_tables_effect {Row} (select_all : string → outcome (list Row))
    (refuses : Toolkit.bulk_refusal Row) (tables : list string) :
  NoDup tables →
  ∀ target target' lines calls,
    Toolkit.copy_tables select_all refuses tables target = (target', lines, calls) →
    (∀ t, t ∉ tables → target' !! t = target !! t)
    ∧ (∀ t, t ∈ tables →
         target' !! t = target !! t
         ∨ ∃ rows, select_all t = Returns rows ∧ rows ≠ []
                   ∧ target' !! t = Some (default [] (target !! t) ++ rows))
    ∧ (∀ t, t ∈ Toolkit.inserted_into calls →
         t ∈ tables ∧ ∃ rows, select_all t = Returns rows ∧ rows ≠ []).
Proof.
  intros Hnd. induction tables as [|table rest IH];
    intros target target' lines calls Hrun.
  - cbn in Hrun. simplify_eq. split; [done|].
    split; intros t Ht; by apply not_elem_of_nil in Ht.
  - apply NoDup_cons in Hnd as [Hnotin Hnd]. specialize (IH Hnd).
    apply copy_tables_cons in Hrun
      as (target1 & lines1 & calls1 & asked & Hrest & Hcalls & Hasked & Htarget).
    apply IH in Hrest as (Hframe & Heach & Hins). split; [|split].
    + intros t Ht. apply not_elem_of_cons in Ht as [Hne Ht]. rewrite (Hframe t Ht).
      destruct Htarget as [[-> _]|(rows & _ & _ & _ & ->)]; [done|].
      by rewrite lookup_insert_ne.
    + intros t Ht. apply elem_of_cons in Ht as [->|Ht].
      * rewrite (Hframe table Hnotin).
        destruct Htarget as [[-> _]|(rows & Hsel & Hnz & _ & ->)]; [by left|].
        right. exists rows. by rewrite lookup_insert_eq.
      * assert (t ≠ table) as Hne by (by intros ->).
        assert (target1 !! t = target !! t) as Hsame.
        { destruct Htarget as [[-> _]|(rows & _ & _ & _ & ->)]; [done|].
          by rewrite lookup_insert_ne. }
        destruct (Heach t Ht) as [Hkeep|(rs & Hs & Hnz & Hgain)].
        -- left. by rewrite Hkeep.
        -- right. exists rs. by rewrite Hgain, Hsame.
    + intros t Ht. rewrite Hcalls in Ht. apply elem_of_app in Ht as [Ht|Ht].
      * destruct Hasked as [->|[-> Hrows]]; [by apply not_elem_of_nil in Ht|].
        apply list_elem_of_singleton in Ht as ->. split; [apply list_elem_of_here|done].
      * destruct (Hins t Ht) as [Hin Hrows]. split; [by apply list_elem_of_further|done].
Qed.

Lemma copy_tables_all_accepted {Row} (select_all : string → outcome (list Row))
    (refuses : Toolkit.bulk_refusal Row) (tables : list string) :
  NoDup tables →
  (∀ db t rows, refuses db t rows = None) →
  ∀ target target' lines calls,
    Toolkit.copy_tables select_all refuses tables target = (target', lines, calls) →
    ∀ t rows, t ∈ tables → select_all t = Returns rows →
      default [] (target' !! t) = default [] (target !! t) ++ rows.
Proof.
  intros Hnd Hacc. induction tables as [|table rest IH];
    intros target target' lines calls Hrun t rows Ht Hsel.
  - by apply not_elem_of_nil in Ht.
  - apply NoDup_cons in Hnd as [Hnotin Hnd].
    apply copy_tables_cons in Hrun
      as (target1 & lines1 & calls1 & asked & Hrest & _ & _ & Htarget).
    pose proof (copy_tables_effect select_all refuses rest Hnd _ _ _ _ Hrest)
      as (Hframe & _).
    apply elem_of_cons in Ht as [->|Ht].
    + rewrite (Hframe table Hnotin).
      destruct Htarget as [[-> [Hnil|[[e He]|(rs & e & _ & Hr)]]]|(rs & Hs & _ & _ & ->)].
      * rewrite Hsel in Hnil. simplify_eq. by rewrite app_nil_r.
      * congruence.
      * by rewrite Hacc in Hr.
      * rewrite lookup_insert_eq. rewrite Hsel in Hs. by simplify_eq.
    + assert (t ≠ table) as Hne by (by intros ->).
      rewrite (IH Hnd _ _ _ _ Hrest t rows Ht Hsel).
      destruct Htarget as [[-> _]|(rs & _ & _ & _ & ->)]; [done|].
      by rewrite lookup_insert_ne.
Qed.

(** X18.  [copy_table_data] copies a table with one insert of all its rows
    or not at all.  Over a list of distinct tables, every listed table of
    the target is left as it was or gains, after its former rows, all rows
    the unpaged select answered; the tables not listed are left as they
    were; an insert is only sent for a listed table whose select answered at
    least one row.  When the target refuses no insert, every listed table
    gains the rows of its select. *)
Theorem toolkit_copy_table_data_effect {Row} (response : outcome (option (list item)))
    (select_all : string → outcome (list Row)) (refuses : Toolkit.bulk_refusal Row)
    (target : database Row) (names : list string) :
  (Toolkit.list_tables response).1 = Some names →
  NoDup names →
  (∀ t, t ∉ names →
     (Toolkit.copy_table_data response select_all refuses target).1.1 !! t = target !! t)
  ∧ (∀ t, t ∈ names →
       (Toolkit.copy_table_data response select_all refuses target).1.1 !! t = target !! t
       ∨ ∃ rows, select_all t = Returns rows ∧ rows ≠ []
           ∧ (Toolkit.copy_table_data response select_all refuses target).1.1 !! t
             = Some (default [] (target !! t) ++ rows))
  ∧ (∀ t, t ∈ Toolkit.inserted_into
                (Toolkit.copy_table_data response select_all refuses target).2 →
       t ∈ names ∧ ∃ rows, select_all t = Returns rows ∧ rows ≠ [])
  ∧ ((∀ db t rows, refuses db t rows = None) →
     ∀ t rows, t ∈ names → select_all t = Returns rows →
       default [] ((Toolkit.copy_table_data response select_all refuses target).1.1 !! t)
       = default [] (target !! t) ++ rows).
Proof.
  intros Hnames Hnd. unfold Toolkit.copy_table_data.
  destruct (Toolkit.list_tables response) as [tables printed]. cbn in Hnames. subst tables.
  destruct names as [|n ns].
  - cbn. split; [done|]. split; [by left|]. split.
    + intros t Ht. by apply not_elem_of_nil in Ht.
    + intros _ t rows Ht. by apply not_elem_of_nil in Ht.
  - destruct (Toolkit.copy_tables select_all refuses (n :: ns) target)
      as [[target' lines] calls] eqn:Hrun.
    cbn [fst snd].
    pose proof (copy_tables_effect select_all refuses (n :: ns) Hnd _ _ _ _ Hrun)
      as (Hframe & Heach & Hins).
    split; [done|]. split; [done|]. split; [exact Hins|].
    intros Hacc t rows Ht Hsel.
    by apply (copy_tables_all_accepted select_all refuses (n :: ns) Hnd Hacc _ _ _ _ Hrun).
Qed.

Lemma toolkit_copy_table_data_effect_witness :
  (Toolkit.copy_table_data
     (Returns (Some [ {[ "table_name" := "users" ]}; {[ "table_name" := "orders" ]} ]))
     (fun t => if decide (t = "users") then Returns [ 1; 2 ] else Raises "timeout")
     (fun _ _ _ => None) ({[ "logs" := [ 9 ] ]} : database Z)).1.1 !! "logs"
  = ({[ "logs" := [ 9 ] ]} : database Z) !! "logs".
Proof.
  refine (proj1 (toolkit_copy_table_data_effect
            (Returns (Some [ {[ "table_name" := "users" ]}; {[ "table_name" := "orders" ]} ]))
            (fun t => if decide (t = "users") then Returns [ 1; 2 ] else Raises "timeout")
            (fun _ _ _ => None) {[ "logs" := [ 9 ] ]} [ "orders"; "users" ] _ _) "logs" _).
  - vm_compute. reflexivity.
  - apply NoDup_cons. split; [|apply NoDup_singleton].
    intros Hin. apply list_elem_of_singleton in Hin. discriminate Hin.
  - intros Hin. apply elem_of_cons in Hin as [Hin|Hin]; [discriminate Hin|].
    apply list_elem_of_singleton in Hin. discriminate Hin.
Defined.

(** The select of orders raises and users is copied; a refused insert leaves
    the table as it was. *)
Example toolkit_copy_table_data_examples :
  (Toolkit.copy_table_data
     (Returns (Some [ {[ "table_name" := "users" ]}; {[ "table_name" := "orders" ]} ]))
     (fun t => if decide (t = "users") then Returns [ 1; 2 ] else Raises "timeout")
     (fun _ _ _ => None) (∅ : database Z)).1
  = ({[ "users" := [ 1; 2 ] ]},
     [ Toolkit.CopyingTable "orders"; Toolkit.CopyError "orders" "timeout";
       Toolkit.CopyingTable "users"; Toolkit.CopiedRows 2 "users" ])
  ∧ (Toolkit.copy_table_data
       (Returns (Some [ {[ "table_name" := "users" ]} ]))
       (fun _ => Returns [ 1; 2 ])
       (fun _ _ rows => if decide (2 ∈ rows) then Some "duplicate key" else None)
       ({[ "users" := [ 2 ] ]} : database Z)).1.1
    = {[ "users" := [ 2 ] ]}.
Proof. split; vm_compute; reflexivity. Qed.

(** ** The session *)

Lemma migrate_all_tables_returns {Row} (fuel : nat) (cloud_tables : list string)
    (supabase_cloud : Client Row) (refuses : refusal Row) (answer : string)
    (target : database Row) :
  (∀ t, t ∈ cloud_tables → exhausts fuel supabase_cloud t 0 = true) →
  ∃ result target' evs,
    migrate_all_tables fuel cloud_tables supabase_cloud refuses answer target
    = Some (result, target', evs)
    ∧ (confirmed answer = false → target' = target).
Proof.
  intros Hex. unfold migrate_all_tables. destruct cloud_tables as [|t ts].
  - by eexists _, _, _.
  - destruct (confirmed answer) eqn:Hc; cbn [negb].
    + destruct (migrate_each_runs supabase_cloud refuses fuel (length (t :: ts)) (t :: ts)
                  Hex 1%nat target) as (target' & evs & Hrun & _).
      rewrite Hrun. by eexists _, _, _.
    + by eexists _, _, _.
Qed.

Lemma main_loop_session {Row} (fuel : nat) (supabase_cloud supabase_local : Client Row)
    (local_catalog : database Row → outcome (option (list item)))
    (refuses : refusal Row) (cloud_tables : list string) :
  (∀ t, t ∈ cloud_tables → exhausts fuel supabase_cloud t 0 = true) →
  ∀ turns local_tables typed target,
    (length typed < turns)%nat →
    ∃ code target' evs,
      main_loop turns fuel supabase_cloud supabase_local local_catalog refuses
        cloud_tables local_tables typed target
      = Some (code, target', evs)
      ∧ (code = 0 ∨ code = 1)
      ∧ (code = 0 → "5" ∈ strip <$> typed)
      ∧ ("4" ∉ strip <$> typed → target' = target)
      ∧ (Forall (fun l => confirmed l = false) typed → target' = target)
      ∧ (cloud_tables = [] → target' = target).
Proof.
  intros Hex turns. induction turns as [|turns IH];
    intros local_tables typed target Hlen; [lia|].
  cbn [main_loop].
  destruct (show_menu typed) as [[[choice|e] rest] warnings] eqn:Hmenu.
  2:{ eexists _, _, _. split; [done|]. split; [by right|]. by repeat split. }
  apply show_menu_returns in Hmenu as (skipped & l & -> & <- & Hvalid & _ & _).
  rewrite length_app in Hlen. cbn [length] in Hlen.
  assert (∀ x, x ∈ strip <$> rest → x ∈ strip <$> skipped ++ l :: rest) as Hin_rest.
  { intros x Hx. rewrite fmap_app, fmap_cons. apply elem_of_app. right.
    by apply list_elem_of_further. }
  assert (strip l ∈ strip <$> skipped ++ l :: rest) as Hin_choice.
  { rewrite fmap_app, fmap_cons. apply elem_of_app. right. apply list_elem_of_here. }
  assert (∀ (P : string → Prop), Forall P (skipped ++ l :: rest) → Forall P rest) as Hall_rest.
  { intros P HP. apply Forall_app in HP as [_ HP]. by apply Forall_cons in HP as [_ HP]. }
  assert (∀ lt tg evs0,
            ∃ code target' evs,
              match main_loop turns fuel supabase_cloud supabase_local local_catalog refuses
                      cloud_tables lt rest tg with
              | None => None
              | Some (code, target', evs') => Some (code, target', evs0 ++ evs')
              end = Some (code, target', evs)
              ∧ (code = 0 ∨ code = 1)
              ∧ (code = 0 → "5" ∈ strip <$> skipped ++ l :: rest)
              ∧ ("4" ∉ strip <$> skipped ++ l :: rest → target' = tg)
              ∧ (Forall (fun l => confirmed l = false) (skipped ++ l :: rest) → target' = tg)
              ∧ (cloud_tables = [] → target' = tg))
    as Hagain.
  { intros lt tg evs0.
    destruct (IH lt rest tg)
      as (code & target' & evs & Hrun & Hcode & H5 & H4 & Hc & He); [lia|].
    rewrite Hrun. exists code, target', (evs0 ++ evs). split; [done|]. split; [done|].
    split; [by intros ?; apply Hin_rest, H5|]. split; [|split; [|done]].
    - intros Hno. apply H4. intros Hx. by apply Hno, Hin_rest.
    - intros Hall. by apply Hc, Hall_rest. }
  case_decide as H1; [apply Hagain|]. case_decide as H2; [apply Hagain|].
  case_decide as H3; [apply Hagain|]. case_decide as H4.
  - rewrite H4 in Hin_choice. destruct cloud_tables as [|c cs]; [apply Hagain|].
    destruct rest as [|answer rest'].
    { eexists _, _, _. split; [done|]. split; [by right|]. by repeat split. }
    destruct (migrate_all_tables_returns fuel (c :: cs) supabase_cloud refuses answer
                target Hex) as (result & target1 & evs1 & Hrun & Hsame).
    rewrite Hrun.
    assert ("4" ∉ strip <$> skipped ++ l :: answer :: rest' → target1 = target) as Hno4
      by (by intros Hno; destruct (Hno Hin_choice)).
    assert (Forall (fun l => confirmed l = false) (skipped ++ l :: answer :: rest') →
            target1 = target) as Hnoc.
    { intros Hall. apply Hsame. apply Hall_rest in Hall.
      by apply Forall_cons in Hall as [? _]. }
    destruct (get_tables (local_catalog target1)) as [local_tables'|e].
    + destruct (IH local_tables' rest' target1)
        as (code & target' & evs & Hloop & Hcode & H5 & H4' & Hc & _); [cbn in Hlen; lia|].
      rewrite Hloop. eexists _, _, _. split; [done|]. split; [done|].
      split; [|split; [|split; [|done]]].
      * intros Hz. apply Hin_rest. rewrite fmap_cons. by apply list_elem_of_further, H5.
      * intros Hno. by destruct (Hno Hin_choice).
      * intros Hall. rewrite <- (Hnoc Hall). apply Hc.
        apply Hall_rest in Hall. by apply Forall_cons in Hall as [_ ?].
    + eexists _, _, _. split; [done|]. split; [by right|]. by repeat split.
  - case_decide as H5; [|apply Hagain].
    rewrite H5 in Hin_choice.
    eexists _, _, _. split; [done|]. split; [by left|]. by repeat split.
Qed.

Lemma main_session {Row} (fuel : nat) (clients : outcome (Client Row * Client Row))
    (cloud_catalog : outcome (option (list item)))
    (local_catalog : database Row → outcome (option (list item)))
    (refuses : refusal Row) (typed : list string) (target : database Row) :
  (∀ cloud local names t,
     clients = Returns (cloud, local) → get_tables cloud_catalog = Returns names →
     t ∈ names → exhausts fuel cloud t 0 = true) →
  ∃ code target' evs,
    main fuel clients cloud_catalog local_catalog refuses typed target
    = Some (code, target', evs)
    ∧ (code = 0 ∨ code = 1)
    ∧ (code = 0 →
         "5" ∈ strip <$> typed
         ∧ (∃ c, clients = Returns c)
         ∧ ∃ cloud_tables local_tables,
             get_tables cloud_catalog = Returns cloud_tables
             ∧ get_tables (local_catalog target) = Returns local_tables
             ∧ (cloud_tables ≠ [] ∨ local_tables ≠ []))
    ∧ ("4" ∉ strip <$> typed → target' = target)
    ∧ (Forall (fun l => confirmed l = false) typed → target' = target)
    ∧ (get_tables cloud_catalog = Returns [] → target' = target).
Proof.
  intros Hex. unfold main.
  destruct clients as [[supabase_cloud supabase_local]|e];
    [|eexists _, _, _; split; [done|]; split; [by right|]; by repeat split].
  destruct (get_tables cloud_catalog) as [cloud_tables|e] eqn:Hcloud;
    [|eexists _, _, _; split; [done|]; split; [by right|]; by repeat split].
  destruct (get_tables (local_catalog target)) as [local_tables|e] eqn:Hlocal;
    [|eexists _, _, _; split; [done|]; split; [by right|]; by repeat split].
  assert (∃ code target' evs,
            main_loop (S (length typed)) fuel supabase_cloud supabase_local local_catalog
              refuses cloud_tables local_tables typed target
            = Some (code, target', evs)
            ∧ (code = 0 ∨ code = 1)
            ∧ (code = 0 → "5" ∈ strip <$> typed)
            ∧ ("4" ∉ strip <$> typed → target' = target)
            ∧ (Forall (fun l => confirmed l = false) typed → target' = target)
            ∧ (cloud_tables = [] → target' = target)) as Hloop.
  { apply main_loop_session; [|lia]. intros t Ht. by eapply Hex. }
  destruct cloud_tables as [|c cs]; [destruct local_tables as [|n ns]|].
  - eexists _, _, _. split; [done|]. split; [by right|]. by repeat split.
  - destruct Hloop as (code & target' & evs & Hrun & Hcode & H5 & H4 & Hc & He).
    exists code, target', evs. split; [done|]. split; [done|].
    split; [|split; [done|split; [done|by intros _; apply He]]].
    intros Hz. split; [by apply H5|]. split; [by eexists|].
    exists [], (n :: ns). split; [done|]. split; [done|]. by right.
  - destruct Hloop as (code & target' & evs & Hrun & Hcode & H5 & H4 & Hc & He).
    exists code, target', evs. split; [done|]. split; [done|].
    split; [|split; [done|split; [done|discriminate]]].
    intros Hz. split; [by apply H5|]. split; [by eexists|].
    exists (c :: cs), local_tables. split; [done|]. split; [done|]. by left.
Qed.

(** X19.  When the pages of every discovered cloud table run out within the
    fuel, a session of [main] over any typed lines ends with exit code 0 or
    1.  The code is 0 only when the clients were created, both discoveries
    returned, at least one of the two lists is not empty, and one of the
    typed lines, stripped of blanks, is "5"; every failure, also the end of
    the typed lines, gives 1. *)
Theorem main_exit_code {Row} (fuel : nat) (clients : outcome (Client Row * Client Row))
    (cloud_catalog : outcome (option (list item)))
    (local_catalog : database Row → outcome (option (list item)))
    (refuses : refusal Row) (typed : list string) (target : database Row) :
  (∀ cloud local names t,
     clients = Returns (cloud, local) → get_tables cloud_catalog = Returns names →
     t ∈ names → exhausts fuel cloud t 0 = true) →
  ∃ code target' evs,
    main fuel clients cloud_catalog local_catalog refuses typed target
    = Some (code, target', evs)
    ∧ (code = 0 ∨ code = 1)
    ∧ (code = 0 →
         "5" ∈ strip <$> typed
         ∧ (∃ c, clients = Returns c)
         ∧ ∃ cloud_tables local_tables,
             get_tables cloud_catalog = Returns cloud_tables
             ∧ get_tables (local_catalog target) = Returns local_tables
             ∧ (cloud_tables ≠ [] ∨ local_tables ≠ [])).
Proof.
  intros Hex.
  destruct (main_session fuel clients cloud_catalog local_catalog refuses typed target Hex)
    as (code & target' & evs & Hrun & Hcode & Hzero & _).
  by exists code, target', evs.
Qed.

(** X20.  A session of [main] changes the target only through a migration
    that was chosen and confirmed: the target is left as it was when no
    typed line, stripped of blanks, is "4", when no typed line confirms, or
    when the discovery of the cloud instance found no table. *)
Theorem main_target_unchanged {Row} (fuel : nat)
    (clients : outcome (Client Row * Client Row))
    (cloud_catalog : outcome (option (list item)))
    (local_catalog : database Row → outcome (option (list item)))
    (refuses : refusal Row) (typed : list string) (target : database Row) :
  (∀ cloud local names t,
     clients = Returns (cloud, local) → get_tables cloud_catalog = Returns names →
     t ∈ names → exhausts fuel cloud t 0 = true) →
  "4" ∉ strip <$> typed
  ∨ Forall (fun l => confirmed l = false) typed
  ∨ get_tables cloud_catalog = Returns [] →
  ∃ code evs,
    main fuel clients cloud_catalog local_catalog refuses typed target
    = Some (code, target, evs).
Proof.
  intros Hex Hcase.
  destruct (main_session fuel clients cloud_catalog local_catalog refuses typed target Hex)
    as (code & target' & evs & Hrun & _ & _ & H4 & Hc & He).
  exists code, evs. rewrite Hrun.
  destruct Hcase as [Hno|[Hall|Hempty]];
    [rewrite (H4 Hno)|rewrite (Hc Hall)|rewrite (He Hempty)]; done.
Qed.

(** A session: list the cloud tables, migrate and confirm, compare, exit. *)
Example main_session_example :
  (fun r => (r.1.1, r.1.2))
    <$> main 3 (Returns (table_store {[ "b" := [ 1; 2 ] ]}, table_store (∅ : gmap string (list Z))))
          (Returns (Some [ public_item "b" ]))
          (fun _ => Returns (Some [ public_item "b" ]))
          accepts_all [ "1"; "4"; "y"; "3"; "5" ] ∅
  = Some (0, {[ "b" := [ 1; 2 ] ]}).
Proof. vm_compute. reflexivity. Qed.

(** The typed lines end at the confirmation prompt: exit code 1. *)
Example main_session_eof :
  (fun r => (r.1.1, r.1.2))
    <$> main 3 (Returns (table_store {[ "b" := [ 1; 2 ] ]}, table_store (∅ : gmap string (list Z))))
          (Returns (Some [ public_item "b" ]))
          (fun _ => Returns (Some [ public_item "b" ]))
          accepts_all [ "4" ] ∅
  = Some (1, ∅).
Proof. vm_compute. reflexivity. Qed.

Lemma main_exit_code_witness :
  ∃ code target' evs,
    main 3 (Returns (table_store {[ "b" := [ 1; 2 ] ]}, table_store (∅ : gmap string (list Z))))
      (Returns (Some [ public_item "b" ]))
      (fun _ => Returns (Some [ public_item "b" ]))
      accepts_all [ "1"; "4"; "y"; "3"; "5" ] (∅ : database Z)
    = Some (code, target', evs)
    ∧ (code = 0 ∨ code = 1)
    ∧ (code = 0 →
         "5" ∈ strip <$> [ "1"; "4"; "y"; "3"; "5" ]
         ∧ (∃ c, Returns (table_store {[ "b" := [ 1; 2 ] ]}, table_store (∅ : gmap string (list Z))) = Returns c)
         ∧ ∃ cloud_tables local_tables,
             get_tables (Returns (Some [ public_item "b" ])) = Returns cloud_tables
             ∧ get_tables (Returns (Some [ public_item "b" ])) = Returns local_tables
             ∧ (cloud_tables ≠ [] ∨ local_tables ≠ [])).
Proof.
  apply (main_exit_code 3 (Returns (table_store {[ "b" := [ 1; 2 ] ]}, table_store (∅ : gmap string (list Z))))
           (Returns (Some [ public_item "b" ]))
           (fun _ => Returns (Some [ public_item "b" ]))
           accepts_all [ "1"; "4"; "y"; "3"; "5" ] ∅).
  intros cloud local names t Hc Hn Ht. injection Hc as <- <-.
  vm_compute in Hn. injection Hn as <-.
  apply list_elem_of_singleton in Ht as ->. vm_compute. reflexivity.
Defined.

Lemma main_target_unchanged_witness :
  ∃ code evs,
    main 3 (Returns (table_store {[ "b" := [ 1; 2 ] ]}, table_store (∅ : gmap string (list Z))))
      (Returns (Some [ public_item "b" ]))
      (fun _ => Returns (Some [ public_item "b" ]))
      accepts_all [ "4"; "n"; "3"; "5" ] (∅ : database Z)
    = Some (code, ∅, evs).
Proof.
  apply (main_target_unchanged 3
           (Returns (table_store {[ "b" := [ 1; 2 ] ]}, table_store (∅ : gmap string (list Z))))
           (Returns (Some [ public_item "b" ]))
           (fun _ => Returns (Some [ public_item "b" ]))
           accepts_all [ "4"; "n"; "3"; "5" ] ∅).
  - intros cloud local names t Hc Hn Ht. injection Hc as <- <-.
    vm_compute in Hn. injection Hn as <-.
    apply list_elem_of_singleton in Ht as ->. vm_compute. reflexivity.
  - right. left. repeat constructor.
Defined.

(** ** The two paging loops side by side *)

Lemma pages_of_full_batches (n : nat) :
  pages_of n
  = (full_batches n
     + if decide ((Z.of_nat n `mod` page_size)%Z = 0%Z) then 0 else 1)%nat.
Proof.
  unfold pages_of, full_batches, batch_size, page_size.
  pose proof (Z.div_mod (Z.of_nat n) 1000 ltac:(lia)) as Hdm.
  pose proof (Z.mod_pos_bound (Z.of_nat n) 1000 ltac:(lia)) as Hmod.
  assert (0 ≤ Z.of_nat n / 1000) as Hq by (apply Z.div_pos; lia).
  case_decide as Hz.
  - assert ((Z.of_nat n + 1000 - 1) / 1000 = Z.of_nat n / 1000) as ->; [|lia].
    symmetry. apply (Z.div_unique _ 1000 _ 999); lia.
  - assert ((Z.of_nat n + 1000 - 1) / 1000 = Z.of_nat n / 1000 + 1) as ->.
    { symmetry. apply (Z.div_unique _ 1000 _ (Z.of_nat n `mod` 1000 - 1)); lia. }
    rewrite Z2Nat.inj_add by lia. change (Z.to_nat 1) with 1%nat. lia.
Qed.

Lemma page_ranges_prefix (table : string) (start : Z) (n m : nat) :
  (n ≤ m)%nat → page_ranges table start n `prefix_of` page_ranges table start m.
Proof.
  intros Hnm. unfold page_ranges.
  replace m with (n + (m - n))%nat by lia. rewrite seq_app, fmap_app.
  by apply prefix_app_r.
Qed.

(** X21.  On the same table of R rows the copier and the counter agree on
    the rows: the counter returns R and the copier issues R inserts.  They
    differ in the requests: the counter's requests are the first requests of
    the copier, and the copier sends one more exactly when R is not a
    multiple of 1000, since only an empty page ends it. *)
Theorem copier_and_counter_requests {Row} (others : gmap string (list Row))
    (refuses : refusal Row) (table : string) (rows : list Row)
    (target : database Row) (extra : nat) :
  ∃ target' total evs counted,
    migrate_table (S (length rows + extra)) (table_store (<[table := rows]> others))
      refuses table target
    = Some (target', Returns total, evs)
    ∧ count_table (S (length rows + extra)) (table_store (<[table := rows]> others)) table
      = Some (Returns (Z.of_nat (length rows)), counted)
    ∧ length (attempted evs) = length rows
    ∧ fetches counted `prefix_of` fetches evs
    ∧ length (fetches evs)
      = (length (fetches counted)
         + if decide ((Z.of_nat (length rows) `mod` page_size)%Z = 0%Z) then 0 else 1)%nat.
Proof.
  destruct (migrate_table_table_store others refuses table rows target extra)
    as (target' & total & evs & Hrun & Hf & Ha & _).
  destruct (count_loop_table_store (<[table := rows]> others) table rows
              (lookup_insert_eq _ _ _) (S (length rows + extra)) 0 0 0)
    as (counted & Hcount & Hfc & _).
  { rewrite drop_0. lia. }
  rewrite drop_0 in Hcount, Hfc. change (Z.of_nat 0) with 0 in Hcount, Hfc.
  rewrite Z.add_0_l in Hcount.
  exists target', total, evs, counted. split; [done|]. split; [exact Hcount|].
  split; [by rewrite Ha, length_fmap|].
  rewrite Hf, Hfc, !length_page_ranges, pages_of_full_batches.
  split; [apply page_ranges_prefix; lia|lia].
Qed.
